(** * Expressive Code engine: configuration resolution and theme CSS emission

    A shallow embedding of
    [packages/@expressive-code/core/src/common/engine.ts]
    (class [ExpressiveCodeEngine]: its constructor, [getBaseStyles] and
    [getThemeStyles]) together with the properties checked against it.

    Conventions of the embedding:
    - theme objects are JavaScript objects that the constructor mutates in
      place, so they live in a heap [gmap ThemeRef ExpressiveCodeTheme] and
      every list of themes is a list of references into it;
    - the configuration object handed to the constructor is mutated in place
      as well; it is a component of the constructor's state;
    - a JavaScript computation that may throw and may touch the state is a
      function [S -> Completion A * S]; an [async] method is the computation
      it awaits to the end, a rejected promise being a [Throw];
    - caller-supplied functions ([customizeTheme], [themeCssSelector], plugin
      [baseStyles]) are arbitrary computations over the theme heap;
    - types and functions of the package that live in other files are the
      fields of the classes [ExternalTypes] and [Externals], except where
      stated otherwise. *)

From Stdlib Require Import Floats.
From stdpp Require Import gmap strings list.

Set Default Proof Using "Type".

(** ** Completions and the state-and-exception monad *)

(** What a [throw] carries. [Error] is [new Error(message)]; [TypeError] is
    what the runtime raises on a property access through [undefined]. *)
Inductive JsError : Type :=
| Error (message : string)
| TypeError (message : string).

Inductive Completion (A : Type) : Type :=
| Normal (value : A)
| Throw (error : JsError).
Arguments Normal {A} value.
Arguments Throw {A} error.

Definition St (S A : Type) : Type := S -> Completion A * S.

Definition ret {S A} (a : A) : St S A := fun s => (Normal a, s).

Definition throw {S A} (e : JsError) : St S A := fun s => (Throw e, s).

Definition bind {S A B} (m : St S A) (k : A -> St S B) : St S B :=
  fun s =>
    match m s with
    | (Normal a, s') => k a s'
    | (Throw e, s') => (Throw e, s')
    end.

Definition getState {S} : St S S := fun s => (Normal s, s).

Definition modifyState {S} (f : S -> S) : St S unit := fun s => (Normal tt, f s).

(** A computation that cannot touch the state. *)
Definition liftCompletion {S A} (c : Completion A) : St S A := fun s => (c, s).

(** Runs a computation over a component of the state. *)
Definition zoom {S T A} (get : S -> T) (set : T -> S -> S) (m : St T A) : St S A :=
  fun s => let '(r, t') := m (get s) in (r, set t' s).

Declare Scope js_scope.
Delimit Scope js_scope with js.
Notation "'do' x <- m ; k" := (bind m (fun x => k))
  (at level 10, x name, m at level 100, k at level 200) : js_scope.
Notation "'do' ' p <- m ; k" := (bind m (fun x => match x with p => k end))
  (at level 10, p pattern, m at level 100, k at level 200) : js_scope.
Notation "'run' m ; k" := (bind m (fun _ => k))
  (at level 10, m at level 100, k at level 200) : js_scope.
Open Scope js_scope.

(** [array.map((x, i) => f(x, i))] with an effectful callback, [i] counting
    from [start]. *)
Fixpoint mapM_index {S A B} (f : A -> nat -> St S B) (start : nat) (l : list A)
  : St S (list B) :=
  match l with
  | [] => ret []
  | x :: rest =>
      do y <- f x start;
      do ys <- mapM_index f (Datatypes.S start) rest;
      ret (y :: ys)
  end.

(** [array.find(p)] with an effectful predicate: stops at the first hit. *)
Fixpoint findM {S A} (p : A -> St S bool) (l : list A) : St S (option A) :=
  match l with
  | [] => ret None
  | x :: rest =>
      do b <- p x;
      if b then ret (Some x) else findM p rest
  end.

(** A [for ... of] loop whose body pushes zero or more elements to an
    output array. *)
Fixpoint forPush {S A B} (body : A -> St S (list B)) (l : list A) : St S (list B) :=
  match l with
  | [] => ret []
  | x :: rest =>
      do out <- body x;
      do outs <- forPush body rest;
      ret (out ++ outs)
  end.

(** ** Strings *)

Definition nl : string := String (Ascii.ascii_of_nat 10) EmptyString.
Definition tab : string := String (Ascii.ascii_of_nat 9) EmptyString.
Definition dquote : string := String (Ascii.ascii_of_nat 34) EmptyString.

Fixpoint tabs (n : nat) : string :=
  match n with
  | O => EmptyString
  | Datatypes.S n' => tab +:+ tabs n'
  end.

(** A line of a template literal: line break, indentation, text. *)
Definition line (indent : nat) (text : string) : string := nl +:+ tabs indent +:+ text.

(** JavaScript truthiness of a string. *)
Definition truthy (s : string) : bool :=
  match s with
  | EmptyString => false
  | String _ _ => true
  end.

(** [list.join(sep)] *)
Definition join (sep : string) (l : list string) : string := String.concat sep l.

(** ** [Map<string, string>]: insertion-ordered, keys unique *)

Definition JsMap : Type := list (string * string).

Fixpoint Map_get (m : JsMap) (key : string) : option string :=
  match m with
  | [] => None
  | (k, v) :: rest => if String.eqb k key then Some v else Map_get rest key
  end.

(** [map.set(key, value)]: an existing key keeps its position. *)
Fixpoint Map_set (m : JsMap) (key value : string) : JsMap :=
  match m with
  | [] => [(key, value)]
  | (k, v) :: rest =>
      if String.eqb k key then (k, value) :: rest else (k, v) :: Map_set rest key value
  end.

(** [map.forEach((value, key) => body)] threading the loop's accumulator. *)
Definition Map_forEach {Acc} (m : JsMap) (body : Acc -> string -> string -> Acc) (acc : Acc) : Acc :=
  fold_left (fun acc kv => body acc (snd kv) (fst kv)) m acc.

(** The keys of a well-formed [Map] are pairwise different. *)
Definition Map_wf (m : JsMap) : Prop := NoDup (map fst m).

(** [value !== other] where [value] may be [undefined]. *)
Definition strictNotEqual (a b : option string) : bool :=
  match a, b with
  | Some x, Some y => negb (String.eqb x y)
  | None, None => false
  | _, _ => true
  end.

(** ** Themes, style variants, plugins *)

Inductive ThemeType : Type := dark | light.

Definition ThemeType_eqb (a b : ThemeType) : bool :=
  match a, b with
  | dark, dark | light, light => true
  | _, _ => false
  end.

Definition ThemeType_toString (t : ThemeType) : string :=
  match t with
  | dark => "dark"
  | light => "light"
  end.

(** The part of [ExpressiveCodeTheme] the engine reads, and the colors the
    contrast pass rewrites. *)
Record ExpressiveCodeTheme : Type := {
  name : string;
  type : ThemeType;
  colors : list (string * string);
}.

Definition ThemeRef : Type := nat.

Abbreviation ThemeHeap := (gmap nat ExpressiveCodeTheme).

Record StyleVariant : Type := {
  theme : ThemeRef;
  styleVariantIndex : nat;
  cssVarDeclarations : JsMap;
}.

(** [string | false] *)
Inductive StringOrFalse : Type :=
| Str (s : string)
| IsFalse.

(** [themeCssSelector]: a function of the theme and the style variants, or
    [false]. *)
Inductive ThemeCssSelector : Type :=
| SelectorFn (f : ThemeRef -> list StyleVariant -> St ThemeHeap StringOrFalse)
| SelectorFalse.

(** [customizeTheme]: may change the theme in place and may return a
    replacement. *)
Definition CustomizeTheme : Type := ThemeRef -> St ThemeHeap (option ThemeRef).

Record ResolverContext : Type := {
  cssVar : string -> option string -> string;
  cssVarName : string -> string;
  rc_styleVariants : list StyleVariant;
}.

(** [plugin.baseStyles]: a string, or a function of the resolver context. *)
Inductive BaseStyles : Type :=
| StaticStyles (styles : string)
| ComputedStyles (f : ResolverContext -> St ThemeHeap string).

Module Plugin.
Record ExpressiveCodePlugin : Type := {
  name : string;
  baseStyles : option BaseStyles;
}.
End Plugin.
Abbreviation ExpressiveCodePlugin := Plugin.ExpressiveCodePlugin.

Record PluginStyles : Type := {
  pluginName : string;
  styles : string;
}.

(** An entry of [config.plugins]: a plugin or a nested array of plugins. *)
Inductive PluginOrArray : Type :=
| OnePlugin (p : ExpressiveCodePlugin)
| PluginArray (ps : list ExpressiveCodePlugin).

(** [plugins.flat()] *)
Definition flat (l : list PluginOrArray) : list ExpressiveCodePlugin :=
  flat_map (fun x => match x with OnePlugin p => [p] | PluginArray ps => ps end) l.

(** The runtime shapes the constructor tells apart with [Array.isArray]. *)
Inductive ThemeOrArray : Type :=
| OneTheme (t : ThemeRef)
| ThemeArray (ts : list ThemeRef).

(** ** Types declared in other files of the package *)

Class ExternalTypes : Type := {
  StyleOverrides : Type;
  DefaultProps : Type;
  LoggerOptions : Type;
  ExpressiveCodeLogger : Type;
  ResolvedStyleSettings : Type;
}.

(** ** The configuration object *)

Module Config.
Record ExpressiveCodeEngineConfig `{ExternalTypes} : Type := {
  themes : option ThemeOrArray;
  minSyntaxHighlightingColorContrast : option float;
  useDarkModeMediaQuery : option bool;
  themeCssRoot : option string;
  themeCssSelector : option ThemeCssSelector;
  cascadeLayer : option string;
  useStyleReset : option bool;
  customizeTheme : option CustomizeTheme;
  useThemedScrollbars : option bool;
  useThemedSelectionColors : option bool;
  styleOverrides : option StyleOverrides;
  defaultLocale : option string;
  defaultProps : option DefaultProps;
  plugins : option (list PluginOrArray);
  logger : option LoggerOptions;
  theme : option ThemeOrArray;
}.

(** [config.themes = value] *)
Definition setThemes `{ExternalTypes} (value : option ThemeOrArray)
    (config : ExpressiveCodeEngineConfig) : ExpressiveCodeEngineConfig :=
  {| themes := value;
     minSyntaxHighlightingColorContrast := minSyntaxHighlightingColorContrast config;
     useDarkModeMediaQuery := useDarkModeMediaQuery config;
     themeCssRoot := themeCssRoot config;
     themeCssSelector := themeCssSelector config;
     cascadeLayer := cascadeLayer config;
     useStyleReset := useStyleReset config;
     customizeTheme := customizeTheme config;
     useThemedScrollbars := useThemedScrollbars config;
     useThemedSelectionColors := useThemedSelectionColors config;
     styleOverrides := styleOverrides config;
     defaultLocale := defaultLocale config;
     defaultProps := defaultProps config;
     plugins := plugins config;
     logger := logger config;
     theme := theme config |}.

(** [delete config.theme] *)
Definition deleteTheme `{ExternalTypes} (config : ExpressiveCodeEngineConfig)
  : ExpressiveCodeEngineConfig :=
  {| themes := themes config;
     minSyntaxHighlightingColorContrast := minSyntaxHighlightingColorContrast config;
     useDarkModeMediaQuery := useDarkModeMediaQuery config;
     themeCssRoot := themeCssRoot config;
     themeCssSelector := themeCssSelector config;
     cascadeLayer := cascadeLayer config;
     useStyleReset := useStyleReset config;
     customizeTheme := customizeTheme config;
     useThemedScrollbars := useThemedScrollbars config;
     useThemedSelectionColors := useThemedSelectionColors config;
     styleOverrides := styleOverrides config;
     defaultLocale := defaultLocale config;
     defaultProps := defaultProps config;
     plugins := plugins config;
     logger := logger config;
     theme := None |}.

(** The same configuration with another [customizeTheme]. *)
Definition withCustomizeTheme `{ExternalTypes} (value : option CustomizeTheme)
    (config : ExpressiveCodeEngineConfig) : ExpressiveCodeEngineConfig :=
  {| themes := themes config;
     minSyntaxHighlightingColorContrast := minSyntaxHighlightingColorContrast config;
     useDarkModeMediaQuery := useDarkModeMediaQuery config;
     themeCssRoot := themeCssRoot config;
     themeCssSelector := themeCssSelector config;
     cascadeLayer := cascadeLayer config;
     useStyleReset := useStyleReset config;
     customizeTheme := value;
     useThemedScrollbars := useThemedScrollbars config;
     useThemedSelectionColors := useThemedSelectionColors config;
     styleOverrides := styleOverrides config;
     defaultLocale := defaultLocale config;
     defaultProps := defaultProps config;
     plugins := plugins config;
     logger := logger config;
     theme := theme config |}.
End Config.
Abbreviation ExpressiveCodeEngineConfig := Config.ExpressiveCodeEngineConfig.

(** ** Reading and writing theme objects *)

(** A property access through a theme reference. A reference with no object
    behind it stands for [undefined]. *)
Definition readTheme (r : ThemeRef) : St ThemeHeap ExpressiveCodeTheme :=
  fun h =>
    match h !! r with
    | Some t => (Normal t, h)
    | None => (Throw (TypeError "Cannot read properties of undefined"), h)
    end.

(** [new ExpressiveCodeTheme(...)]: a fresh object. *)
Definition newTheme (t : ExpressiveCodeTheme) : St ThemeHeap ThemeRef :=
  fun h => let r := fresh (dom h) in (Normal r, <[r := t]> h).

(** A method of the theme that rewrites the object in place. *)
Definition updateTheme (r : ThemeRef) (f : ExpressiveCodeTheme -> ExpressiveCodeTheme)
  : St ThemeHeap unit :=
  do t <- readTheme r;
  modifyState (fun h : ThemeHeap => <[r := f t]> h).

(** ** [wrapInCascadeLayer] *)

(** Modelled from the spec: [wrapInCascadeLayer] of [internal/css], which is
    not part of the sources at hand. "If layerName is empty, returns cssText
    unchanged. Otherwise returns [@layer <layerName> { <cssText> }]." *)
Definition wrapInCascadeLayer (cssText layerName : string) : string :=
  if truthy layerName
  then "@layer " +:+ layerName +:+ " { " +:+ cssText +:+ " }"
  else cssText.

(** ** Pieces of [getThemeStyles] that do not depend on the engine *)

(** [renderDeclarations] (the arrow function at the top of [getThemeStyles]) *)
Definition renderDeclarations (declarations : JsMap) : string :=
  join ";" (map (fun '(varName, varValue) => varName +:+ ":" +:+ varValue) declarations).

(** The [forEach] loop that fills [diffVars]. *)
Definition diffVars (baseVars declarations : JsMap) : JsMap :=
  Map_forEach declarations
    (fun diff varValue varName =>
       if strictNotEqual (Map_get baseVars varName) (Some varValue)
       then Map_set diff varName varValue
       else diff)
    [].

(** Truthiness of a [string | false], and its text inside a template. *)
Definition isTruthy (v : StringOrFalse) : bool :=
  match v with
  | Str s => truthy s
  | IsFalse => false
  end.

Definition interpolate (v : StringOrFalse) : string :=
  match v with
  | Str s => s
  | IsFalse => "false"
  end.

(** [this.themeCssSelector && this.themeCssSelector(theme, { styleVariants })] *)
Definition callThemeCssSelector (selector : ThemeCssSelector) (theme : ThemeRef)
    (styleVariants : list StyleVariant) : St ThemeHeap StringOrFalse :=
  match selector with
  | SelectorFalse => ret IsFalse
  | SelectorFn f => f theme styleVariants
  end.

(** An element of the local array [alternateVariants]. *)
Record AlternateVariant : Type := {
  av_theme : ThemeRef;
  cssVars : string;
  coreStyles : string;
}.

(** The three template literals handed to [scopeAndMinifyNestedCss]. *)
Definition baseThemeCss (baseVarSelectors declarations baseThemeStyleSelectors coreThemeStyles : string)
  : string :=
  line 4 (baseVarSelectors +:+ " {") +:+
  line 5 declarations +:+
  line 4 "}" +:+
  line 4 (baseThemeStyleSelectors +:+ " {") +:+
  line 5 coreThemeStyles +:+
  line 4 "}" +:+
  line 3 EmptyString.

Definition darkModeMediaQueryCss (altType : ThemeType) (themeCssRoot notBaseThemeSelector : string)
    (firstAltVariant : AlternateVariant) : string :=
  line 4 ("@media (prefers-color-scheme: " +:+ ThemeType_toString altType +:+ ") {") +:+
  line 5 (themeCssRoot +:+ notBaseThemeSelector +:+ " {") +:+
  line 6 (cssVars firstAltVariant) +:+
  line 5 "}" +:+
  line 5 (themeCssRoot +:+ notBaseThemeSelector +:+ " & {") +:+
  line 6 (coreStyles firstAltVariant) +:+
  line 5 "}" +:+
  line 4 "}" +:+
  line 3 EmptyString.

Definition themeSelectorCss (themeCssRoot themeSelector notBaseThemeSelector : string)
    (variant : AlternateVariant) : string :=
  line 6 (themeCssRoot +:+ themeSelector +:+ " &" +:+ notBaseThemeSelector +:+ ", &" +:+
          themeSelector +:+ " {") +:+
  line 7 (cssVars variant +:+ ";") +:+
  line 7 (coreStyles variant) +:+
  line 6 "}" +:+
  line 5 EmptyString.

(** The message of the error thrown when the media query cannot be built.
    [themeLabels] is [this.themes.map((theme) => `${theme.name} (${theme.type})`)]. *)
Definition darkModeErrorMessage (themeLabels : list string) : string :=
  join " "
    [ "The config option " +:+ dquote +:+ "useDarkModeMediaQuery: true" +:+ dquote +:+
      " requires at least";
      "one dark and one light theme, but the following themes were given:";
      join ", " themeLabels ].

Definition themeLabel (t : ExpressiveCodeTheme) : string :=
  name t +:+ " (" +:+ ThemeType_toString (type t) +:+ ")".

Definition oppositeType (t : ThemeType) : ThemeType :=
  match t with
  | dark => light
  | light => dark
  end.

(** ** The engine *)

(** The functions and constants of the package that live in other files. *)
Class Externals `{ExternalTypes} : Type := {
  (** [{}] as style overrides and as default props *)
  emptyStyleOverrides : StyleOverrides;
  emptyProps : DefaultProps;
  (** [new ExpressiveCodeLogger(options)] *)
  newLogger : option LoggerOptions -> ExpressiveCodeLogger;
  (** [corePlugins] of [internal/core-plugins] *)
  corePlugins : list ExpressiveCodePlugin;
  (** what the objects [new ExpressiveCodeTheme(githubDark)] and
      [new ExpressiveCodeTheme(githubLight)] start out as *)
  githubDark : ExpressiveCodeTheme;
  githubLight : ExpressiveCodeTheme;
  (** [resolveStyleSettings({ theme, styleVariantIndex, plugins, styleOverrides })]
      reads the theme object it is given *)
  resolveStyleSettings :
    ThemeHeap -> ThemeRef -> nat -> list ExpressiveCodePlugin -> StyleOverrides ->
    Completion ResolvedStyleSettings;
  (** [settings.get(path)] *)
  settingsGet : ResolvedStyleSettings -> string -> option string;
  getFirstStaticColor : option string -> option string;
  (** the effect of [theme.ensureMinSyntaxHighlightingColorContrast(ratio, bg)]
      on the theme object *)
  ensureMinSyntaxHighlightingColorContrast :
    float -> option string -> ExpressiveCodeTheme -> ExpressiveCodeTheme;
  getCssVarName : string -> string;
  (** [resolveStyleVariants({ themes, styleOverrides, plugins, cssVarName })] *)
  resolveStyleVariants :
    ThemeHeap -> list ThemeRef -> StyleOverrides -> list ExpressiveCodePlugin ->
    (string -> string) -> Completion (list StyleVariant);
  (** [getCoreBaseStyles({ ...resolverContext, useStyleReset, useThemedScrollbars,
      useThemedSelectionColors })] *)
  getCoreBaseStyles : ResolverContext -> bool -> bool -> bool -> string;
  getCoreThemeStyles : nat -> string;
  (** asynchronous, and may reject *)
  scopeAndMinifyNestedCss : string -> Completion string;
  (** resolves to a [Set<string>]; the list is its iteration order *)
  processPluginStyles : list PluginStyles -> Completion (list string);
}.

Section Engine.
Context `{Externals}.

Record ExpressiveCodeEngine : Type := {
  themes : list ThemeRef;
  minSyntaxHighlightingColorContrast : float;
  useDarkModeMediaQuery : bool;
  themeCssRoot : string;
  themeCssSelector : ThemeCssSelector;
  cascadeLayer : string;
  useStyleReset : bool;
  customizeTheme : option CustomizeTheme;
  useThemedScrollbars : bool;
  useThemedSelectionColors : bool;
  styleOverrides : StyleOverrides;
  styleVariants : list StyleVariant;
  defaultLocale : string;
  defaultProps : DefaultProps;
  plugins : list ExpressiveCodePlugin;
  logger : ExpressiveCodeLogger;
}.

(** *** [cssVar] and [getResolverContext] *)

Definition engine_cssVar (styleSetting : string) (fallbackValue : option string) : string :=
  "var(" +:+ getCssVarName styleSetting +:+
  match fallbackValue with
  | Some fallback => if truthy fallback then ", " +:+ fallback else EmptyString
  | None => EmptyString
  end +:+ ")".

Definition getResolverContext (this : ExpressiveCodeEngine) : ResolverContext :=
  {| cssVar := engine_cssVar;
     cssVarName := getCssVarName;
     rc_styleVariants := styleVariants this |}.

(** *** [getBaseStyles] *)

(** The body of the loop over [this.plugins]. *)
Definition pluginBaseStyles (resolverContext : ResolverContext) (plugin : ExpressiveCodePlugin)
  : St ThemeHeap (list PluginStyles) :=
  match Plugin.baseStyles plugin with
  | None => ret []
  | Some (StaticStyles s) =>
      if truthy s then ret [ {| pluginName := Plugin.name plugin; styles := s |} ] else ret []
  | Some (ComputedStyles f) =>
      do resolvedStyles <- f resolverContext;
      if truthy resolvedStyles
      then ret [ {| pluginName := Plugin.name plugin; styles := resolvedStyles |} ]
      else ret []
  end.

(** The array [pluginStyles] once the loop is over. *)
Definition collectPluginStyles (this : ExpressiveCodeEngine) : St ThemeHeap (list PluginStyles) :=
  let resolverContext := getResolverContext this in
  let core :=
    {| pluginName := "core";
       styles := getCoreBaseStyles resolverContext (useStyleReset this)
                   (useThemedScrollbars this) (useThemedSelectionColors this) |} in
  do fromPlugins <- forPush (pluginBaseStyles resolverContext) (plugins this);
  ret (core :: fromPlugins).

Definition getBaseStyles (this : ExpressiveCodeEngine) : St ThemeHeap string :=
  do pluginStyles <- collectPluginStyles this;
  do processedStyles <- liftCompletion (processPluginStyles pluginStyles);
  ret (wrapInCascadeLayer (join EmptyString processedStyles) (cascadeLayer this)).

(** *** [getThemeStyles] *)

(** The array [alternateVariants]: one entry per style variant from index 1
    on, [styleVariantIndex] being the loop counter. *)
Fixpoint alternateVariantsFrom (baseVars : JsMap) (styleVariantIndex : nat)
    (variants : list StyleVariant) : list AlternateVariant :=
  match variants with
  | [] => []
  | styleVariant :: rest =>
      {| av_theme := theme styleVariant;
         cssVars := renderDeclarations (diffVars baseVars (cssVarDeclarations styleVariant));
         coreStyles := getCoreThemeStyles styleVariantIndex |}
      :: alternateVariantsFrom baseVars (Datatypes.S styleVariantIndex) rest
  end.

(** The selectors derived from the base theme's selector. *)
Definition notBaseThemeSelectorOf (baseThemeSelector : StringOrFalse) : string :=
  if isTruthy baseThemeSelector
  then ":not(" +:+ interpolate baseThemeSelector +:+ ")"
  else EmptyString.

Definition baseThemeBlockInsideAlternateThemeRootOf (this : ExpressiveCodeEngine)
    (baseThemeSelector : StringOrFalse) : string :=
  let notBaseThemeSelector := notBaseThemeSelectorOf baseThemeSelector in
  if truthy notBaseThemeSelector
  then themeCssRoot this +:+ notBaseThemeSelector +:+ " &" +:+ interpolate baseThemeSelector
  else notBaseThemeSelector.

(** The first [themeStyles.push]: the base theme's block. *)
Definition baseThemeStyles (this : ExpressiveCodeEngine) (baseVars : JsMap)
    (baseThemeSelector : StringOrFalse) : Completion string :=
  let baseThemeBlockInsideAlternateThemeRoot :=
    baseThemeBlockInsideAlternateThemeRootOf this baseThemeSelector in
  let baseVarSelectors :=
    join "," (filter (fun selector => truthy selector = true)
                [themeCssRoot this; baseThemeBlockInsideAlternateThemeRoot]) in
  let baseThemeStyleSelectors :=
    join "," (filter (fun selector => truthy selector = true)
                ["&"; baseThemeBlockInsideAlternateThemeRoot]) in
  scopeAndMinifyNestedCss
    (baseThemeCss baseVarSelectors (renderDeclarations baseVars)
       baseThemeStyleSelectors (getCoreThemeStyles 0)).

(** The [if (this.useDarkModeMediaQuery)] block: what it pushes. *)
Definition darkModeMediaQueryStyles (this : ExpressiveCodeEngine)
    (notBaseThemeSelector : string) (alternateVariants : list AlternateVariant)
  : St ThemeHeap (list string) :=
  if useDarkModeMediaQuery this then
    do baseTheme <-
      match styleVariants this with
      | base :: _ => readTheme (theme base)
      | [] => throw (TypeError "Cannot read properties of undefined")
      end;
    let altType := if ThemeType_eqb (type baseTheme) dark then light else dark in
    do firstAltVariant <-
      findM (fun variant =>
               do t <- readTheme (av_theme variant);
               ret (ThemeType_eqb (type t) altType))
            alternateVariants;
    match firstAltVariant with
    | None =>
        do themeLabels <- mapM_index (fun r _ => do t <- readTheme r; ret (themeLabel t))
                            0 (themes this);
        throw (Error (darkModeErrorMessage themeLabels))
    | Some firstAltVariant =>
        do darkModeMediaQuery <-
          liftCompletion
            (scopeAndMinifyNestedCss
               (darkModeMediaQueryCss altType (themeCssRoot this) notBaseThemeSelector
                  firstAltVariant));
        ret [darkModeMediaQuery]
    end
  else ret [].

(** The body of the loop over [alternateVariants] under
    [if (this.themeCssSelector !== false)]. *)
Definition themeSelectorStyles (this : ExpressiveCodeEngine) (notBaseThemeSelector : string)
    (variant : AlternateVariant) : St ThemeHeap (list string) :=
  do themeSelector <-
    callThemeCssSelector (themeCssSelector this) (av_theme variant) (styleVariants this);
  if isTruthy themeSelector then
    do css <-
      liftCompletion
        (scopeAndMinifyNestedCss
           (themeSelectorCss (themeCssRoot this) (interpolate themeSelector)
              notBaseThemeSelector variant));
    ret [css]
  else ret [].

(** The array [themeStyles] at the [return]. *)
Definition themeStyles (this : ExpressiveCodeEngine) : St ThemeHeap (list string) :=
  do '(baseVars, baseTheme) <-
    match styleVariants this with
    | base :: _ => ret (cssVarDeclarations base, theme base)
    | [] => throw (TypeError "Cannot destructure property of undefined")
    end;
  do baseThemeSelector <-
    callThemeCssSelector (themeCssSelector this) baseTheme (styleVariants this);
  let notBaseThemeSelector := notBaseThemeSelectorOf baseThemeSelector in
  do baseStyles <- liftCompletion (baseThemeStyles this baseVars baseThemeSelector);
  let alternateVariants := alternateVariantsFrom baseVars 1 (tail (styleVariants this)) in
  do mediaQuery <- darkModeMediaQueryStyles this notBaseThemeSelector alternateVariants;
  do perTheme <-
    match themeCssSelector this with
    | SelectorFalse => ret []
    | SelectorFn _ => forPush (themeSelectorStyles this notBaseThemeSelector) alternateVariants
    end;
  ret (baseStyles :: mediaQuery ++ perTheme).

Definition getThemeStyles (this : ExpressiveCodeEngine) : St ThemeHeap string :=
  do fragments <- themeStyles this;
  ret (wrapInCascadeLayer (join EmptyString fragments) (cascadeLayer this)).

(** *** The constructor *)

(** Calls the constructor makes into the rest of the package, in order.
    [LoggerCall] is a diagnostic written through a logger. *)
Inductive Call : Type :=
| ResolveStyleSettingsCall (theme : ThemeRef) (styleVariantIndex : nat)
| EnsureMinSyntaxHighlightingColorContrastCall
    (theme : ThemeRef) (minContrast : float) (backgroundColor : option string)
| ResolveStyleVariantsCall (themes : list ThemeRef)
| LoggerCall (message : string).

(** What the constructor can change: the theme objects, the configuration
    object it was handed, and the record of its calls. *)
Record World : Type := {
  themeObjects : ThemeHeap;
  configObject : ExpressiveCodeEngineConfig;
  calls : list Call;
}.

Definition setThemeObjects (h : ThemeHeap) (w : World) : World :=
  {| themeObjects := h; configObject := configObject w; calls := calls w |}.

Definition setConfigObject (c : ExpressiveCodeEngineConfig) (w : World) : World :=
  {| themeObjects := themeObjects w; configObject := c; calls := calls w |}.

Definition onThemes {A} (m : St ThemeHeap A) : St World A :=
  zoom themeObjects setThemeObjects m.

Definition readConfig : St World ExpressiveCodeEngineConfig :=
  do w <- getState; ret (configObject w).

Definition record (c : Call) : St World unit :=
  modifyState (fun w =>
    {| themeObjects := themeObjects w; configObject := configObject w;
       calls := calls w ++ [c] |}).

(** [lhs ?? rhs] *)
Definition nullish {A} (lhs : option A) (rhs : A) : A :=
  match lhs with
  | Some a => a
  | None => rhs
  end.

(** Lines 232-236: the transfer of the deprecated [theme] option. *)
Definition transferDeprecatedTheme : St World unit :=
  do config <- readConfig;
  match Config.theme config, Config.themes config with
  | Some deprecatedTheme, None =>
      let themes :=
        match deprecatedTheme with
        | ThemeArray ts => ts
        | OneTheme t => [t]
        end in
      run modifyState (fun w =>
            setConfigObject (Config.setThemes (Some (ThemeArray themes)) (configObject w)) w);
      modifyState (fun w => setConfigObject (Config.deleteTheme (configObject w)) w)
  | _, _ => ret tt
  end.

(** Line 237: the initial value of [this.themes]. *)
Definition initialThemes : St World (list ThemeRef) :=
  do config <- readConfig;
  match Config.themes config with
  | Some (ThemeArray ts) => ret ts
  | Some (OneTheme t) => ret [t]
  | None =>
      do d <- onThemes (newTheme githubDark);
      do l <- onThemes (newTheme githubLight);
      ret [d; l]
  end.

(** Line 239: the default of [useDarkModeMediaQuery]. *)
Definition defaultUseDarkModeMediaQuery (themes : list ThemeRef) : St ThemeHeap bool :=
  match themes with
  | [first; second] =>
      do t0 <- readTheme first;
      do t1 <- readTheme second;
      ret (negb (ThemeType_eqb (type t0) (type t1)))
  | _ => ret false
  end.

(** Lines 254-272: the callback of [this.themes.map]. *)
Definition customizeAndAdjustTheme (customizeTheme : option CustomizeTheme)
    (minSyntaxHighlightingColorContrast : float) (plugins : list ExpressiveCodePlugin)
    (styleOverrides : StyleOverrides) (theme : ThemeRef) (styleVariantIndex : nat)
  : St World ThemeRef :=
  do theme <-
    match customizeTheme with
    | Some customize =>
        do replacement <- onThemes (customize theme);
        ret (nullish replacement theme)
    | None => ret theme
    end;
  run (if PrimFloat.ltb 0 minSyntaxHighlightingColorContrast then
         run record (ResolveStyleSettingsCall theme styleVariantIndex);
         do w <- getState;
         do themeStyleSettings <-
           liftCompletion
             (resolveStyleSettings (themeObjects w) theme styleVariantIndex plugins
                styleOverrides);
         let codeBg := getFirstStaticColor (settingsGet themeStyleSettings "codeBackground") in
         run record (EnsureMinSyntaxHighlightingColorContrastCall theme
                       minSyntaxHighlightingColorContrast codeBg);
         onThemes (updateTheme theme
                     (ensureMinSyntaxHighlightingColorContrast
                        minSyntaxHighlightingColorContrast codeBg))
       else ret tt);
  ret theme.

(** Line 241: [(theme) => `[data-theme='${theme.name}']`] *)
Definition defaultThemeCssSelector : ThemeCssSelector :=
  SelectorFn (fun theme _ =>
    do t <- readTheme theme;
    ret (Str ("[data-theme='" +:+ name t +:+ "']"))).

Definition constructor : St World ExpressiveCodeEngine :=
  run transferDeprecatedTheme;
  do themes0 <- initialThemes;
  do config <- readConfig;
  let minSyntaxHighlightingColorContrast :=
    nullish (Config.minSyntaxHighlightingColorContrast config) 5.5%float in
  do useDarkModeMediaQuery <-
    match Config.useDarkModeMediaQuery config with
    | Some b => ret b
    | None => onThemes (defaultUseDarkModeMediaQuery themes0)
    end;
  let themeCssRoot := nullish (Config.themeCssRoot config) ":root" in
  let themeCssSelector :=
    nullish (Config.themeCssSelector config) defaultThemeCssSelector in
  let cascadeLayer := nullish (Config.cascadeLayer config) EmptyString in
  let useStyleReset := nullish (Config.useStyleReset config) true in
  let customizeTheme := Config.customizeTheme config in
  let useThemedScrollbars := nullish (Config.useThemedScrollbars config) true in
  let useThemedSelectionColors := nullish (Config.useThemedSelectionColors config) false in
  let styleOverrides := nullish (Config.styleOverrides config) emptyStyleOverrides in
  let defaultLocale :=
    match Config.defaultLocale config with
    | Some locale => if truthy locale then locale else "en-US"
    | None => "en-US"
    end in
  let defaultProps := nullish (Config.defaultProps config) emptyProps in
  let plugins := corePlugins ++ nullish (option_map flat (Config.plugins config)) [] in
  let logger := newLogger (Config.logger config) in
  do themes <-
    mapM_index
      (customizeAndAdjustTheme customizeTheme minSyntaxHighlightingColorContrast plugins
         styleOverrides)
      0 themes0;
  run record (ResolveStyleVariantsCall themes);
  do w <- getState;
  do styleVariants <-
    liftCompletion
      (resolveStyleVariants (themeObjects w) themes styleOverrides plugins getCssVarName);
  ret {| themes := themes;
         minSyntaxHighlightingColorContrast := minSyntaxHighlightingColorContrast;
         useDarkModeMediaQuery := useDarkModeMediaQuery;
         themeCssRoot := themeCssRoot;
         themeCssSelector := themeCssSelector;
         cascadeLayer := cascadeLayer;
         useStyleReset := useStyleReset;
         customizeTheme := customizeTheme;
         useThemedScrollbars := useThemedScrollbars;
         useThemedSelectionColors := useThemedSelectionColors;
         styleOverrides := styleOverrides;
         styleVariants := styleVariants;
         defaultLocale := defaultLocale;
         defaultProps := defaultProps;
         plugins := plugins;
         logger := logger |}.

End Engine.

(** ** [getJsModules] *)

(** [plugin.jsModules]: an array of module sources, or a function of the
    resolver context that returns one. *)
Inductive JsModules : Type :=
| StaticModules (modules : list string)
| ComputedModules (f : ResolverContext -> St ThemeHeap (list string)).

(** A plugin of [this.plugins] seen with its [jsModules] property, which the
    record [ExpressiveCodePlugin] above leaves out. *)
Module PluginJs.
Record PluginWithJsModules : Type := {
  plugin : ExpressiveCodePlugin;
  jsModules : option JsModules;
}.
End PluginJs.
Abbreviation PluginWithJsModules := PluginJs.PluginWithJsModules.

(** [set.add(value)] on a [Set<string>], the list being its iteration order. *)
Definition Set_add (set : list string) (value : string) : list string :=
  if bool_decide (value ∈ set) then set else set ++ [value].

Section JsModules.
Context `{Externals}.

(** [String.prototype.trim] *)
Variable trim : string -> string.

(** [pluginModules.forEach(...)]: the body trims a module and adds it when
    something is left. *)
Definition addPluginModules (jsModules : list string) (pluginModules : list string)
  : list string :=
  fold_left
    (fun jsModules moduleCode =>
       let moduleCode := trim moduleCode in
       if truthy moduleCode then Set_add jsModules moduleCode else jsModules)
    pluginModules jsModules.

(** The loop over [this.plugins], [jsModules] being the set so far. *)
Fixpoint collectJsModules (this : ExpressiveCodeEngine) (plugins : list PluginWithJsModules)
    (jsModules : list string) : St ThemeHeap (list string) :=
  match plugins with
  | [] => ret jsModules
  | plugin :: rest =>
      do pluginModules <-
        match PluginJs.jsModules plugin with
        | Some (ComputedModules f) =>
            do modules <- f (getResolverContext this); ret (Some modules)
        | Some (StaticModules modules) => ret (Some modules)
        | None => ret None
        end;
      collectJsModules this rest
        match pluginModules with
        | Some modules => addPluginModules jsModules modules
        | None => jsModules
        end
  end.

(** [plugins] stands for [this.plugins]. *)
Definition getJsModules (this : ExpressiveCodeEngine) (plugins : list PluginWithJsModules)
  : St ThemeHeap (list string) :=
  collectJsModules this plugins [].

End JsModules.

(** ** A stand-in for the rest of the package

    Concrete values for [ExternalTypes] and [Externals], so that the engine
    can be run on examples: CSS post-processing is the identity, the contrast
    pass marks the theme it touched, and every theme resolves to three CSS
    variables. *)

Module Sample.

#[export] Instance types : ExternalTypes := {|
  StyleOverrides := unit;
  DefaultProps := unit;
  LoggerOptions := unit;
  ExpressiveCodeLogger := unit;
  ResolvedStyleSettings := JsMap;
|}.

Definition declarationsOf (t : ExpressiveCodeTheme) : JsMap :=
  match type t with
  | dark => [("--ec-bg", "#000"); ("--ec-fg", "#fff"); ("--ec-radius", "4px")]
  | light => [("--ec-bg", "#fff"); ("--ec-fg", "#000"); ("--ec-radius", "4px")]
  end.

Definition variantsOf (h : ThemeHeap) (themes : list ThemeRef) : list StyleVariant :=
  imap (fun i r =>
          {| theme := r;
             styleVariantIndex := i;
             cssVarDeclarations := from_option declarationsOf [] (h !! r) |})
       themes.

#[export] Instance package : Externals := {|
  emptyStyleOverrides := tt;
  emptyProps := tt;
  newLogger := fun _ => tt;
  corePlugins := [];
  githubDark := {| name := "github-dark"; type := dark; colors := [] |};
  githubLight := {| name := "github-light"; type := light; colors := [] |};
  resolveStyleSettings := fun h r _ _ _ => Normal (from_option declarationsOf [] (h !! r));
  settingsGet := fun settings path => Map_get settings ("--ec-bg");
  getFirstStaticColor := fun color => color;
  ensureMinSyntaxHighlightingColorContrast := fun _ _ t =>
    {| name := name t; type := type t; colors := ("contrast", "adjusted") :: colors t |};
  getCssVarName := fun path => "--ec-" +:+ path;
  resolveStyleVariants := fun h themes _ _ _ => Normal (variantsOf h themes);
  getCoreBaseStyles := fun _ _ _ _ => ".expressive-code{}";
  getCoreThemeStyles := fun _ => EmptyString;
  scopeAndMinifyNestedCss := fun css => Normal css;
  processPluginStyles := fun pluginStyles => Normal (map styles pluginStyles);
|}.

Definition night : ExpressiveCodeTheme := {| name := "night"; type := dark; colors := [] |}.
Definition day : ExpressiveCodeTheme := {| name := "day"; type := light; colors := [] |}.
Definition dusk : ExpressiveCodeTheme := {| name := "dusk"; type := dark; colors := [] |}.

(** Three theme objects: [night] at 0, [day] at 1, [dusk] at 2. *)
Definition heap : ThemeHeap := <[2 := dusk]> (<[1 := day]> (<[0 := night]> ∅)).

(** An engine over the given themes with everything else at its default. *)
Definition engineOf (themes : list ThemeRef) (useDarkModeMediaQuery : bool)
    (themeCssSelector : ThemeCssSelector) (cascadeLayer : string) : ExpressiveCodeEngine :=
  {| themes := themes;
     minSyntaxHighlightingColorContrast := 5.5%float;
     useDarkModeMediaQuery := useDarkModeMediaQuery;
     themeCssRoot := ":root";
     themeCssSelector := themeCssSelector;
     cascadeLayer := cascadeLayer;
     useStyleReset := true;
     customizeTheme := None;
     useThemedScrollbars := true;
     useThemedSelectionColors := false;
     styleOverrides := tt;
     styleVariants := variantsOf heap themes;
     defaultLocale := "en-US";
     defaultProps := tt;
     plugins := [];
     logger := tt |}.

(** A configuration object with the given options and the others left out. *)
Definition configOf (themes : option ThemeOrArray) (minContrast : option float)
    (customizeTheme : option CustomizeTheme) (theme : option ThemeOrArray)
  : ExpressiveCodeEngineConfig :=
  {| Config.themes := themes;
     Config.minSyntaxHighlightingColorContrast := minContrast;
     Config.useDarkModeMediaQuery := None;
     Config.themeCssRoot := None;
     Config.themeCssSelector := None;
     Config.cascadeLayer := None;
     Config.useStyleReset := None;
     Config.customizeTheme := customizeTheme;
     Config.useThemedScrollbars := None;
     Config.useThemedSelectionColors := None;
     Config.styleOverrides := None;
     Config.defaultLocale := None;
     Config.defaultProps := None;
     Config.plugins := None;
     Config.logger := None;
     Config.theme := theme |}.

Definition worldOf (config : ExpressiveCodeEngineConfig) : World :=
  {| themeObjects := heap; configObject := config; calls := [] |}.

(** A [themeCssSelector] that throws. *)
Definition failingSelector : ThemeCssSelector :=
  SelectorFn (fun _ _ => throw (Error "no selector for this theme")).

(** A [themeCssSelector] that renames the theme it is asked about. *)
Definition renamingSelector : ThemeCssSelector :=
  SelectorFn (fun r _ =>
    do t <- readTheme r;
    run updateTheme r (fun t => {| name := name t +:+ "'"; type := type t; colors := colors t |});
    ret (Str ("." +:+ name t))).

(** A [customizeTheme] that replaces every theme by [dusk]. *)
Definition replaceByDusk : CustomizeTheme := fun _ => ret (Some 2).

(** A [customizeTheme] that makes the theme it is given a dark one, in place. *)
Definition darken : CustomizeTheme :=
  fun r =>
    run updateTheme r (fun t => {| name := name t; type := dark; colors := colors t |});
    ret None.

(** A [customizeTheme] that throws. *)
Definition failingCustomizeTheme : CustomizeTheme :=
  fun _ => throw (Error "this theme cannot be customized").

(** The selector that [defaultThemeCssSelector] computes for a theme of [heap]. *)
Definition dataThemeSelector (r : ThemeRef) : StringOrFalse :=
  match heap !! r with
  | Some t => Str ("[data-theme='" +:+ name t +:+ "']")
  | None => IsFalse
  end.

(** Three plugins: one with styles and modules, one with nothing to add, one
    whose [jsModules] function throws. *)
Definition framesPlugin : PluginWithJsModules :=
  {| PluginJs.plugin :=
       {| Plugin.name := "frames"; Plugin.baseStyles := Some (StaticStyles ".frame{}") |};
     PluginJs.jsModules := Some (StaticModules ["  copy()"; "copy()"; "   "; "tabs()"]) |}.

Definition quietPlugin : PluginWithJsModules :=
  {| PluginJs.plugin :=
       {| Plugin.name := "quiet"; Plugin.baseStyles := Some (StaticStyles EmptyString) |};
     PluginJs.jsModules := None |}.

Definition brokenPlugin : PluginWithJsModules :=
  {| PluginJs.plugin := {| Plugin.name := "broken"; Plugin.baseStyles := None |};
     PluginJs.jsModules :=
       Some (ComputedModules (fun _ => throw (Error "modules are not available"))) |}.

(** In place of [trim]: drops the blanks a string starts with. *)
Fixpoint dropLeadingBlanks (s : string) : string :=
  match s with
  | String c rest =>
      if Ascii.eqb c (Ascii.ascii_of_nat 32) then dropLeadingBlanks rest else s
  | EmptyString => EmptyString
  end.

(** The same package with a CSS post-processing that rejects what it is
    given. *)
Definition rejectingCss : Externals := {|
  emptyStyleOverrides := tt;
  emptyProps := tt;
  newLogger := fun _ => tt;
  corePlugins := [];
  githubDark := {| name := "github-dark"; type := dark; colors := [] |};
  githubLight := {| name := "github-light"; type := light; colors := [] |};
  resolveStyleSettings := fun h r _ _ _ => Normal (from_option declarationsOf [] (h !! r));
  settingsGet := fun settings path => Map_get settings ("--ec-bg");
  getFirstStaticColor := fun color => color;
  ensureMinSyntaxHighlightingColorContrast := fun _ _ t =>
    {| name := name t; type := type t; colors := ("contrast", "adjusted") :: colors t |};
  getCssVarName := fun path => "--ec-" +:+ path;
  resolveStyleVariants := fun h themes _ _ _ => Normal (variantsOf h themes);
  getCoreBaseStyles := fun _ _ _ _ => ".expressive-code{}";
  getCoreThemeStyles := fun _ => EmptyString;
  scopeAndMinifyNestedCss := fun css => Throw (Error "invalid CSS");
  processPluginStyles := fun pluginStyles => Normal (map styles pluginStyles);
|}.

(** The sample engine over [night] and [day] with the given plugins. *)
Definition engineWithPlugins (plugins : list ExpressiveCodePlugin) : ExpressiveCodeEngine :=
  {| themes := [0; 1];
     minSyntaxHighlightingColorContrast := 5.5%float;
     useDarkModeMediaQuery := true;
     themeCssRoot := ":root";
     themeCssSelector := defaultThemeCssSelector;
     cascadeLayer := EmptyString;
     useStyleReset := true;
     customizeTheme := None;
     useThemedScrollbars := true;
     useThemedSelectionColors := false;
     styleOverrides := tt;
     styleVariants := variantsOf heap [0; 1];
     defaultLocale := "en-US";
     defaultProps := tt;
     plugins := plugins;
     logger := tt |}.

End Sample.

(** * The vocabulary of the properties *)

(** [m] moves every state along [R], whatever its outcome. *)
Definition moves {S A} (R : S -> S -> Prop) (m : St S A) : Prop :=
  forall s, R s (m s).2.

(** A computation that leaves the state as it found it. *)
Definition readOnly {S A} (m : St S A) : Prop := moves (fun s s' => s' = s) m.

(** [needle] occurs in [haystack]. *)
Definition occursIn (needle haystack : string) : Prop :=
  exists before after, haystack = before +:+ needle +:+ after.

(** What [diffVars] keeps of a declaration. *)
Definition differsFromBase (baseVars : JsMap) (declaration : string * string) : bool :=
  strictNotEqual (Map_get baseVars (fst declaration)) (Some (snd declaration)).

(** The computation ended in a [throw]. *)
Definition throws {S A} (outcome : Completion A * S) : Prop :=
  exists e s, outcome = (Throw e, s).

Definition errorMessage (e : JsError) : string :=
  match e with
  | Error message | TypeError message => message
  end.

(** [themeCssSelector] leaves the theme objects alone. *)
Definition selectorReadOnly (selector : ThemeCssSelector) : Prop :=
  forall f, selector = SelectorFn f -> forall theme styleVariants, readOnly (f theme styleVariants).

Section Vocabulary.
Context `{Externals}.

(** Some style variant of index 1 or more has a theme whose type is the
    opposite of the base theme's. *)
Definition hasOppositeAlternate (this : ExpressiveCodeEngine) (h : ThemeHeap) : Prop :=
  exists base alternates i styleVariant baseTheme t,
    styleVariants this = base :: alternates /\
    alternates !! i = Some styleVariant /\
    h !! theme base = Some baseTheme /\
    h !! theme styleVariant = Some t /\
    type t = oppositeType (type baseTheme).

(** Called on a theme of the engine's style variants, [themeCssSelector]
    returns, and leaves the theme objects alone. *)
Definition selectorReturns (this : ExpressiveCodeEngine) (h : ThemeHeap) : Prop :=
  forall f, themeCssSelector this = SelectorFn f ->
  forall styleVariant, styleVariant ∈ styleVariants this ->
  exists v, f (theme styleVariant) (styleVariants this) h = (Normal v, h).

(** The labels [name (type)] of the themes, in order. *)
Definition themeLabels (h : ThemeHeap) (themes : list ThemeRef) : list string :=
  omap (fun r => themeLabel <$> h !! r) themes.

(** The theme of an [alternateVariants] entry has type [ty]. *)
Definition themeHasType (h : ThemeHeap) (ty : ThemeType) (variant : AlternateVariant) : bool :=
  match h !! av_theme variant with
  | Some t => ThemeType_eqb (type t) ty
  | None => false
  end.

(** The configuration object once lines 232-236 have run. *)
Definition transferred (config : ExpressiveCodeEngineConfig) : ExpressiveCodeEngineConfig :=
  match Config.theme config, Config.themes config with
  | Some deprecatedTheme, None =>
      Config.deleteTheme
        (Config.setThemes
           (Some (ThemeArray match deprecatedTheme with
                             | ThemeArray ts => ts
                             | OneTheme t => [t]
                             end))
           config)
  | _, _ => config
  end.

(** The themes line 237 puts in [this.themes], and the theme objects after it. *)
Definition initialThemesOf (config : ExpressiveCodeEngineConfig) (h : ThemeHeap)
  : list ThemeRef * ThemeHeap :=
  match Config.themes config with
  | Some (ThemeArray ts) => (ts, h)
  | Some (OneTheme t) => ([t], h)
  | None =>
      let d := fresh (dom h) in
      let h1 := <[d := githubDark]> h in
      let l := fresh (dom h1) in
      ([d; l], <[l := githubLight]> h1)
  end.

(** The state in which line 238 starts. *)
Definition afterInitialThemes (w : World) : World :=
  {| themeObjects := (initialThemesOf (transferred (configObject w)) (themeObjects w)).2;
     configObject := transferred (configObject w);
     calls := calls w |}.

(** The configuration object stays; the rest moves along [Ph] and [Pt]. *)
Definition within (Ph : ThemeHeap -> ThemeHeap -> Prop) (Pt : list Call -> list Call -> Prop)
    (w w' : World) : Prop :=
  configObject w' = configObject w /\
  Ph (themeObjects w) (themeObjects w') /\
  Pt (calls w) (calls w').

(** A record of calls that has grown by [resolveStyleVariants] calls only. *)
Definition onlyResolveStyleVariantsAdded (before after : list Call) : Prop :=
  forall c, c ∈ after -> c ∈ before \/ exists themes, c = ResolveStyleVariantsCall themes.

End Vocabulary.

(** No plugin of the list computes its [baseStyles]. *)
Definition staticBaseStylesOnly (plugins : list ExpressiveCodePlugin) : Prop :=
  forall plugin f, plugin ∈ plugins -> Plugin.baseStyles plugin <> Some (ComputedStyles f).

(** What a plugin with static [baseStyles] adds to the styles to process. *)
Definition staticPluginStyles (plugin : ExpressiveCodePlugin) : option PluginStyles :=
  match Plugin.baseStyles plugin with
  | Some (StaticStyles s) =>
      if truthy s then Some {| pluginName := Plugin.name plugin; styles := s |} else None
  | _ => None
  end.

(** No plugin of the list computes its [jsModules]. *)
Definition staticJsModulesOnly (plugins : list PluginWithJsModules) : Prop :=
  forall plugin f, plugin ∈ plugins -> PluginJs.jsModules plugin <> Some (ComputedModules f).

(** * Properties *)

(** ** Reasoning about computations *)

Section Outcomes.
Context {S : Type}.

Lemma bind_Normal {A B} (m : St S A) (k : A -> St S B) s b s' :
  bind m k s = (Normal b, s') ->
  exists a s1, m s = (Normal a, s1) /\ k a s1 = (Normal b, s').
Proof.
  unfold bind. destruct (m s) as [[a|e] s1]; [eauto | discriminate].
Qed.

Lemma bind_eq_Normal {A B} (m : St S A) (k : A -> St S B) s a s1 :
  m s = (Normal a, s1) -> bind m k s = k a s1.
Proof. unfold bind. by intros ->. Qed.

Section Moves.
Variable R : S -> S -> Prop.
Hypothesis R_refl : forall s, R s s.
Hypothesis R_trans : forall s1 s2 s3, R s1 s2 -> R s2 s3 -> R s1 s3.

Lemma moves_ret {A} (a : A) : moves R (ret a).
Proof using R_refl. intros s. apply R_refl. Qed.

Lemma moves_throw {A} e : moves R (@throw S A e).
Proof using R_refl. intros s. apply R_refl. Qed.

Lemma moves_liftCompletion {A} (c : Completion A) : moves R (liftCompletion c).
Proof using R_refl. intros s. apply R_refl. Qed.

Lemma moves_getState : moves R (@getState S).
Proof using R_refl. intros s. apply R_refl. Qed.

Lemma moves_bind {A B} (m : St S A) (k : A -> St S B) :
  moves R m -> (forall a, moves R (k a)) -> moves R (bind m k).
Proof using R_trans.
  intros Hm Hk s. unfold bind. specialize (Hm s).
  destruct (m s) as [[a|e] s1]; simpl in *; [|done].
  eapply R_trans; [exact Hm | apply Hk].
Qed.

Lemma moves_mapM_index {A B} (f : A -> nat -> St S B) l :
  (forall x i, moves R (f x i)) -> forall start, moves R (mapM_index f start l).
Proof using R_refl R_trans.
  intros Hf. induction l as [|x rest IH]; intros start; simpl.
  - apply moves_ret.
  - apply moves_bind; [apply Hf|]. intros y.
    apply moves_bind; [apply IH|]. intros ys. apply moves_ret.
Qed.

Lemma moves_findM {A} (p : A -> St S bool) l :
  (forall x, moves R (p x)) -> moves R (findM p l).
Proof using R_refl R_trans.
  intros Hp. induction l as [|x rest IH]; simpl.
  - apply moves_ret.
  - apply moves_bind; [apply Hp|]. intros [|]; [apply moves_ret | exact IH].
Qed.

Lemma moves_forPush {A B} (body : A -> St S (list B)) l :
  (forall x, moves R (body x)) -> moves R (forPush body l).
Proof using R_refl R_trans.
  intros Hb. induction l as [|x rest IH]; simpl.
  - apply moves_ret.
  - apply moves_bind; [apply Hb|]. intros out.
    apply moves_bind; [exact IH|]. intros outs. apply moves_ret.
Qed.
End Moves.
End Outcomes.

Lemma readOnly_readTheme r : readOnly (readTheme r).
Proof. intros h. unfold readTheme. by destruct (h !! r). Qed.

(** ** String facts *)

Lemma append_assoc (a b c : string) : (a +:+ b) +:+ c = a +:+ (b +:+ c).
Proof.
  induction a as [|x a IH]; [done|].
  change (String x ((a +:+ b) +:+ c) = String x (a +:+ b +:+ c)). by rewrite IH.
Qed.

Lemma append_empty_r (a : string) : a +:+ EmptyString = a.
Proof.
  induction a as [|x a IH]; [done|].
  change (String x (a +:+ EmptyString) = String x a). by rewrite IH.
Qed.

Lemma truthy_false (s : string) : truthy s = false <-> s = EmptyString.
Proof. destruct s; simpl; split; congruence. Qed.

Lemma truthy_true (s : string) : truthy s = true <-> s <> EmptyString.
Proof. destruct s; simpl; split; congruence. Qed.

Lemma occursIn_append_r needle a b : occursIn needle b -> occursIn needle (a +:+ b).
Proof.
  intros (p & q & ->). exists (a +:+ p), q. by rewrite append_assoc.
Qed.

Lemma occursIn_trans a b c : occursIn a b -> occursIn b c -> occursIn a c.
Proof.
  intros (p & q & ->) (p' & q' & ->). exists (p' +:+ p), (q +:+ q').
  by rewrite !append_assoc.
Qed.

Lemma occursIn_join sep (l : list string) x : x ∈ l -> occursIn x (join sep l).
Proof.
  unfold join. induction l as [|y rest IH]; intros Hin.
  - by apply elem_of_nil in Hin.
  - apply elem_of_cons in Hin as [->|Hin].
    + destruct rest as [|z rest]; simpl.
      * exists EmptyString, EmptyString. by rewrite append_empty_r.
      * exists EmptyString. eexists. reflexivity.
    + destruct rest as [|z rest]; [by apply elem_of_nil in Hin|].
      change (String.concat sep (y :: z :: rest))
        with (y +:+ sep +:+ String.concat sep (z :: rest)).
      apply occursIn_append_r, occursIn_append_r, IH, Hin.
Qed.

(** ** The [Map] operations *)

Lemma Map_get_Some_In m k v : Map_get m k = Some v -> (k, v) ∈ m.
Proof.
  induction m as [|[k' v'] rest IH]; simpl; [done|].
  destruct (String.eqb_spec k' k) as [->|Hne].
  - intros [= ->]. apply elem_of_cons. by left.
  - intros H. apply elem_of_cons. right. by apply IH.
Qed.

Lemma Map_get_In m k v : Map_wf m -> (k, v) ∈ m -> Map_get m k = Some v.
Proof.
  unfold Map_wf. induction m as [|[k' v'] rest IH]; simpl; intros Hwf Hin.
  - by apply elem_of_nil in Hin.
  - apply NoDup_cons in Hwf as [Hk' Hwf].
    apply elem_of_cons in Hin as [[= -> ->]|Hin].
    + by rewrite String.eqb_refl.
    + destruct (String.eqb_spec k' k) as [->|Hne]; [|by apply IH].
      exfalso. apply Hk'. apply list_elem_of_fmap. by exists (k, v).
Qed.

Lemma Map_set_fresh m k v : k ∉ map fst m -> Map_set m k v = m ++ [(k, v)].
Proof.
  induction m as [|[k' v'] rest IH]; simpl; [done|].
  rewrite not_elem_of_cons. intros [Hne Hrest].
  destruct (String.eqb_spec k' k) as [->|_]; [done|]. by rewrite IH.
Qed.

Lemma strictNotEqual_true a v : strictNotEqual a (Some v) = true <-> a <> Some v.
Proof.
  destruct a as [x|]; simpl; [|split; [discriminate | done]].
  destruct (String.eqb_spec x v) as [->|Hne]; simpl; split; congruence.
Qed.

(** On a well-formed [Map] the [forEach] loop is a filter that keeps the
    declaration order. *)
Lemma diffVars_loop baseVars declarations diff :
  NoDup (map fst diff ++ map fst declarations) ->
  Map_forEach declarations
    (fun diff varValue varName =>
       if strictNotEqual (Map_get baseVars varName) (Some varValue)
       then Map_set diff varName varValue
       else diff)
    diff
  = diff ++ List.filter (differsFromBase baseVars) declarations.
Proof.
  unfold Map_forEach.
  revert diff. induction declarations as [|[k v] rest IH]; intros diff Hnd; simpl.
  - by rewrite app_nil_r.
  - apply NoDup_app in Hnd as (Hdiff & Hdisj & Hrest).
    simpl in Hrest. apply NoDup_cons in Hrest as [Hk Hrest].
    unfold differsFromBase at 1. simpl.
    destruct (strictNotEqual (Map_get baseVars k) (Some v)).
    + rewrite Map_set_fresh.
      2:{ intros Hin. apply (Hdisj k Hin). simpl. apply elem_of_cons. by left. }
      rewrite IH; [by rewrite <- app_assoc|].
      rewrite map_app. simpl. rewrite <- app_assoc. simpl.
      apply NoDup_app. split_and!; [done| |by apply NoDup_cons].
      intros x Hx Hx'. apply (Hdisj x Hx). simpl. done.
    + apply IH. apply NoDup_app. split_and!; [done| |done].
      intros x Hx Hx'. apply (Hdisj x Hx). simpl. apply elem_of_cons. by right.
Qed.

Lemma diffVars_filter baseVars declarations :
  Map_wf declarations ->
  diffVars baseVars declarations = List.filter (differsFromBase baseVars) declarations.
Proof.
  intros Hwf. unfold diffVars. by rewrite diffVars_loop.
Qed.

Lemma Map_wf_filter (p : string * string -> bool) m : Map_wf m -> Map_wf (List.filter p m).
Proof.
  unfold Map_wf. induction m as [|[k v] rest IH]; simpl; [done|].
  intros [Hk Hrest]%NoDup_cons. destruct (p (k, v)); simpl; [|by apply IH].
  apply NoDup_cons. split; [|by apply IH].
  intros ([k' v'] & -> & Hin)%list_elem_of_fmap. simpl in *.
  apply Hk. apply list_elem_of_fmap. exists (k', v'). split; [done|].
  apply list_elem_of_In. apply list_elem_of_In in Hin. by apply filter_In in Hin as [? _].
Qed.

Lemma diffVars_get baseVars declarations k v :
  Map_wf declarations ->
  Map_get (diffVars baseVars declarations) k = Some v <->
  Map_get declarations k = Some v /\ Map_get baseVars k <> Some v.
Proof.
  intros Hwf. rewrite diffVars_filter by done. split.
  - intros Hget%Map_get_Some_In. apply list_elem_of_In, filter_In in Hget as [Hin Hp].
    split; [apply Map_get_In; [done | by apply list_elem_of_In]|].
    by apply strictNotEqual_true in Hp.
  - intros [Hget Hne]. apply Map_get_In; [by apply Map_wf_filter|].
    apply list_elem_of_In, filter_In. split.
    + by apply list_elem_of_In, Map_get_Some_In.
    + by apply strictNotEqual_true.
Qed.

(** ** [getThemeStyles] and [getBaseStyles] *)

Section ThemeStyles.
Context `{Externals}.

Lemma alternateVariantsFrom_lookup baseVars start variants i :
  alternateVariantsFrom baseVars start variants !! i =
  (fun styleVariant =>
     {| av_theme := theme styleVariant;
        cssVars := renderDeclarations (diffVars baseVars (cssVarDeclarations styleVariant));
        coreStyles := getCoreThemeStyles (start + i) |}) <$> variants !! i.
Proof.
  revert start i. induction variants as [|v rest IH]; intros start i; [done|].
  destruct i as [|i]; simpl.
  - by rewrite Nat.add_0_r.
  - rewrite IH. by rewrite Nat.add_succ_r.
Qed.

(** C2. For the style variant at index [S i >= 1], the entry that
    [getThemeStyles] builds in [alternateVariants] carries the rendered diff
    mapping; that mapping holds a variable name with a value exactly when the
    variant declares the name with that value and the base variant's value
    for the name is not the same string; and when the variant's declarations
    agree with the base in every key, the diff is empty and nothing is
    rendered. *)
Theorem diff_mapping_exact (this : ExpressiveCodeEngine) base alternates i styleVariant :
  styleVariants this = base :: alternates ->
  alternates !! i = Some styleVariant ->
  Map_wf (cssVarDeclarations styleVariant) ->
  let baseVars := cssVarDeclarations base in
  let declarations := cssVarDeclarations styleVariant in
  let diff := diffVars baseVars declarations in
  alternateVariantsFrom baseVars 1 (tail (styleVariants this)) !! i =
    Some {| av_theme := theme styleVariant;
            cssVars := renderDeclarations diff;
            coreStyles := getCoreThemeStyles (Datatypes.S i) |}
  /\ (forall varName varValue,
        Map_get diff varName = Some varValue <->
        Map_get declarations varName = Some varValue /\
        Map_get baseVars varName <> Some varValue)
  /\ ((forall varName, Map_get declarations varName = Map_get baseVars varName) ->
      diff = [] /\ renderDeclarations diff = EmptyString).
Proof.
  intros Hvariants Hlookup Hwf baseVars declarations diff. split_and!.
  - rewrite Hvariants. simpl. rewrite alternateVariantsFrom_lookup, Hlookup. done.
  - intros varName varValue. by apply diffVars_get.
  - intros Hsame.
    assert (diff = []) as ->; [|done].
    destruct diff as [|[k v] rest] eqn:Hdiff; [done|]. exfalso.
    assert (Map_get diff k = Some v) as Hget.
    { rewrite Hdiff. simpl. by rewrite String.eqb_refl. }
    apply diffVars_get in Hget as [Hdecl Hbase]; [|done].
    apply Hbase. by rewrite <- Hsame.
Qed.

(** C3. Whatever CSS was generated, [getThemeStyles] and [getBaseStyles]
    return it unchanged when [cascadeLayer] is the empty string, and wrapped
    once in [@layer L { ... }] when [cascadeLayer] is a non-empty [L]. *)
Theorem cascade_layer_wrapping (this : ExpressiveCodeEngine) (h : ThemeHeap) :
  (forall fragments h',
     themeStyles this h = (Normal fragments, h') ->
     let css := join EmptyString fragments in
     (cascadeLayer this = EmptyString -> getThemeStyles this h = (Normal css, h')) /\
     (cascadeLayer this <> EmptyString ->
      getThemeStyles this h =
        (Normal ("@layer " +:+ cascadeLayer this +:+ " { " +:+ css +:+ " }"), h')))
  /\
  (forall pluginStyles processedStyles h',
     collectPluginStyles this h = (Normal pluginStyles, h') ->
     processPluginStyles pluginStyles = Normal processedStyles ->
     let css := join EmptyString processedStyles in
     (cascadeLayer this = EmptyString -> getBaseStyles this h = (Normal css, h')) /\
     (cascadeLayer this <> EmptyString ->
      getBaseStyles this h =
        (Normal ("@layer " +:+ cascadeLayer this +:+ " { " +:+ css +:+ " }"), h'))).
Proof.
  split.
  - intros fragments h' Hfragments css. unfold getThemeStyles.
    rewrite (bind_eq_Normal _ _ _ _ _ Hfragments). unfold ret, wrapInCascadeLayer.
    split; intros Hlayer.
    + by rewrite Hlayer.
    + destruct (truthy (cascadeLayer this)) eqn:Htruthy; [done|].
      by apply truthy_false in Htruthy.
  - intros pluginStyles processedStyles h' Hcollect Hprocess css. unfold getBaseStyles.
    rewrite (bind_eq_Normal _ _ _ _ _ Hcollect).
    unfold bind, liftCompletion, ret, wrapInCascadeLayer. rewrite Hprocess.
    split; intros Hlayer.
    + by rewrite Hlayer.
    + destruct (truthy (cascadeLayer this)) eqn:Htruthy; [done|].
      by apply truthy_false in Htruthy.
Qed.

(** *** Successful runs of [themeStyles], step by step *)

Lemma findM_Normal_Some {S A} (p : A -> St S bool) l s x s' :
  findM p l s = (Normal (Some x), s') -> x ∈ l.
Proof.
  revert s. induction l as [|y rest IH]; intros s; simpl.
  - by intros [= ].
  - intros (b & s1 & Hp & Hrest)%bind_Normal. destruct b.
    + injection Hrest as -> _. apply elem_of_cons. by left.
    + apply elem_of_cons. right. by eapply IH.
Qed.

Lemma themeStyles_Normal (this : ExpressiveCodeEngine) h fragments h' :
  themeStyles this h = (Normal fragments, h') ->
  exists base baseThemeSelector h1 baseBlock mediaQuery h2 perTheme,
    head (styleVariants this) = Some base /\
    callThemeCssSelector (themeCssSelector this) (theme base) (styleVariants this) h
      = (Normal baseThemeSelector, h1) /\
    baseThemeStyles this (cssVarDeclarations base) baseThemeSelector = Normal baseBlock /\
    darkModeMediaQueryStyles this (notBaseThemeSelectorOf baseThemeSelector)
      (alternateVariantsFrom (cssVarDeclarations base) 1 (tail (styleVariants this))) h1
      = (Normal mediaQuery, h2) /\
    match themeCssSelector this with
    | SelectorFalse => perTheme = [] /\ h' = h2
    | SelectorFn _ =>
        forPush (themeSelectorStyles this (notBaseThemeSelectorOf baseThemeSelector))
          (alternateVariantsFrom (cssVarDeclarations base) 1 (tail (styleVariants this))) h2
          = (Normal perTheme, h')
    end /\
    fragments = baseBlock :: mediaQuery ++ perTheme.
Proof.
  unfold themeStyles.
  intros ([baseVars baseTheme] & h0 & Hbase & Hrest)%bind_Normal.
  destruct (styleVariants this) as [|base alternates] eqn:Hvariants; [discriminate|].
  injection Hbase as <- <- <-.
  apply bind_Normal in Hrest as (baseThemeSelector & h1 & Hselector & Hrest).
  apply bind_Normal in Hrest as (baseBlock & h1' & HbaseBlock & Hrest).
  unfold liftCompletion in HbaseBlock. injection HbaseBlock as HbaseBlock <-.
  apply bind_Normal in Hrest as (mediaQuery & h2 & Hmedia & Hrest).
  apply bind_Normal in Hrest as (perTheme & h3 & HperTheme & Hret).
  injection Hret as <- <-.
  exists base, baseThemeSelector, h1, baseBlock, mediaQuery, h2, perTheme.
  split_and!; try done.
  destruct (themeCssSelector this); [done|]. by injection HperTheme as <- <-.
Qed.

(** *** [getThemeStyles] does not write *)

Lemma readOnly_bind {S A B} (m : St S A) (k : A -> St S B) :
  readOnly m -> (forall a, readOnly (k a)) -> readOnly (bind m k).
Proof. apply moves_bind. congruence. Qed.

Lemma readOnly_ret {S A} (a : A) : readOnly (@ret S A a).
Proof. by apply moves_ret. Qed.

Lemma readOnly_throw {S A} e : readOnly (@throw S A e).
Proof. by apply moves_throw. Qed.

Lemma readOnly_liftCompletion {S A} (c : Completion A) : readOnly (@liftCompletion S A c).
Proof. by apply moves_liftCompletion. Qed.

Lemma readOnly_callThemeCssSelector selector theme styleVariants :
  selectorReadOnly selector -> readOnly (callThemeCssSelector selector theme styleVariants).
Proof.
  intros Hselector. destruct selector as [f|]; simpl.
  - by apply Hselector.
  - apply readOnly_ret.
Qed.

Lemma readOnly_darkModeMediaQueryStyles (this : ExpressiveCodeEngine) notBaseThemeSelector
    alternateVariants :
  readOnly (darkModeMediaQueryStyles this notBaseThemeSelector alternateVariants).
Proof.
  unfold darkModeMediaQueryStyles. destruct (useDarkModeMediaQuery this); [|apply readOnly_ret].
  apply readOnly_bind.
  { destruct (styleVariants this); [apply readOnly_throw | apply readOnly_readTheme]. }
  intros baseTheme. apply readOnly_bind.
  { apply moves_findM; [done | congruence |]. intros variant.
    apply readOnly_bind; [apply readOnly_readTheme | intros; apply readOnly_ret]. }
  intros [firstAltVariant|].
  - apply readOnly_bind; [apply readOnly_liftCompletion | intros; apply readOnly_ret].
  - apply readOnly_bind; [|intros; apply readOnly_throw].
    apply moves_mapM_index; [done | congruence |]. intros r _.
    apply readOnly_bind; [apply readOnly_readTheme | intros; apply readOnly_ret].
Qed.

Lemma readOnly_themeStyles (this : ExpressiveCodeEngine) :
  selectorReadOnly (themeCssSelector this) -> readOnly (themeStyles this).
Proof.
  intros Hselector. unfold themeStyles. apply readOnly_bind.
  { destruct (styleVariants this); [apply readOnly_throw | apply readOnly_ret]. }
  intros [baseVars baseTheme]. apply readOnly_bind.
  { by apply readOnly_callThemeCssSelector. }
  intros baseThemeSelector. apply readOnly_bind; [apply readOnly_liftCompletion|].
  intros baseBlock. apply readOnly_bind; [apply readOnly_darkModeMediaQueryStyles|].
  intros mediaQuery. apply readOnly_bind; [|intros; apply readOnly_ret].
  destruct (themeCssSelector this) as [f|] eqn:Hf; [|apply readOnly_ret].
  apply moves_forPush; [done | congruence |]. intros variant.
  unfold themeSelectorStyles. apply readOnly_bind.
  { apply readOnly_callThemeCssSelector. by rewrite Hf. }
  intros themeSelector. destruct (isTruthy themeSelector); [|apply readOnly_ret].
  apply readOnly_bind; [apply readOnly_liftCompletion | intros; apply readOnly_ret].
Qed.

Lemma readOnly_getThemeStyles (this : ExpressiveCodeEngine) :
  selectorReadOnly (themeCssSelector this) -> readOnly (getThemeStyles this).
Proof.
  intros Hselector. unfold getThemeStyles.
  apply readOnly_bind; [by apply readOnly_themeStyles | intros; apply readOnly_ret].
Qed.

(** C8. When the [themeCssSelector] function leaves the theme objects as it
    found them, a call of [getThemeStyles] leaves them unchanged too, and a
    second call on the same engine completes exactly as the first did: the
    same string, or the same error. *)
Theorem getThemeStyles_twice (this : ExpressiveCodeEngine) h first h1 second h2 :
  selectorReadOnly (themeCssSelector this) ->
  getThemeStyles this h = (first, h1) ->
  getThemeStyles this h1 = (second, h2) ->
  second = first /\ h1 = h /\ h2 = h.
Proof.
  intros Hselector Hfirst Hsecond.
  pose proof (readOnly_getThemeStyles this Hselector h) as Hsame.
  rewrite Hfirst in Hsame. simpl in Hsame. subst h1.
  rewrite Hfirst in Hsecond. by injection Hsecond as <- <-.
Qed.

Lemma ThemeType_eqb_eq a b : ThemeType_eqb a b = true <-> a = b.
Proof. destruct a, b; simpl; split; congruence. Qed.

Lemma altType_opposite ty : (if ThemeType_eqb ty dark then light else dark) = oppositeType ty.
Proof. by destruct ty. Qed.

Lemma readTheme_Some h r t : h !! r = Some t -> readTheme r h = (Normal t, h).
Proof. unfold readTheme. by intros ->. Qed.

Lemma findM_themeType h ty (l : list AlternateVariant) :
  (forall v, v ∈ l -> is_Some (h !! av_theme v)) ->
  findM (fun variant => do t <- readTheme (av_theme variant); ret (ThemeType_eqb (type t) ty)) l h
  = (Normal (List.find (themeHasType h ty) l), h).
Proof.
  induction l as [|v rest IH]; intros Hlive; [done|]. simpl.
  destruct (Hlive v) as [t Ht]; [apply elem_of_cons; by left|].
  unfold bind at 1. unfold bind at 1. rewrite (readTheme_Some _ _ _ Ht).
  unfold themeHasType at 1. rewrite Ht. simpl.
  destruct (ThemeType_eqb (type t) ty); [done|].
  apply IH. intros v' Hv'. apply Hlive, elem_of_cons. by right.
Qed.

Lemma themeLabels_run h themes start :
  (forall r, r ∈ themes -> is_Some (h !! r)) ->
  mapM_index (fun r (_ : nat) => do t <- readTheme r; ret (themeLabel t)) start themes h
  = (Normal (themeLabels h themes), h).
Proof.
  revert start. induction themes as [|r rest IH]; intros start Hlive; [done|]. simpl.
  destruct (Hlive r) as [t Ht]; [apply elem_of_cons; by left|].
  unfold bind at 1. unfold bind at 1. rewrite (readTheme_Some _ _ _ Ht). simpl.
  unfold bind at 1. rewrite IH; [|intros r' Hr'; apply Hlive, elem_of_cons; by right].
  unfold themeLabels. simpl. by rewrite Ht.
Qed.

Lemma forPush_returns {S A B} (body : A -> St S (list B)) l s :
  (forall x, x ∈ l -> exists out, body x s = (Normal out, s)) ->
  exists outs, forPush body l s = (Normal outs, s).
Proof.
  induction l as [|x rest IH]; intros Hbody; simpl.
  - by exists [].
  - destruct (Hbody x) as [out Hout]; [apply elem_of_cons; by left|].
    destruct IH as [outs Houts]; [intros y Hy; apply Hbody, elem_of_cons; by right|].
    exists (out ++ outs). unfold bind at 1. rewrite Hout.
    unfold bind at 1. by rewrite Houts.
Qed.

Lemma callThemeCssSelector_returns (this : ExpressiveCodeEngine) h styleVariant :
  selectorReturns this h ->
  styleVariant ∈ styleVariants this ->
  exists v,
    callThemeCssSelector (themeCssSelector this) (theme styleVariant) (styleVariants this) h
    = (Normal v, h).
Proof.
  intros Hselector Hin. unfold callThemeCssSelector.
  destruct (themeCssSelector this) as [f|] eqn:Hf.
  - by apply Hselector.
  - by exists IsFalse.
Qed.

Lemma alternateVariantsFrom_elem baseVars start variants v :
  v ∈ alternateVariantsFrom baseVars start variants ->
  exists i styleVariant, variants !! i = Some styleVariant /\ av_theme v = theme styleVariant.
Proof.
  intros [i Hi]%list_elem_of_lookup. rewrite alternateVariantsFrom_lookup in Hi.
  destruct (variants !! i) as [styleVariant|] eqn:Hlookup; [|done].
  injection Hi as <-. by exists i, styleVariant.
Qed.

(** The case of an engine with at least one style variant. *)
Lemma dark_mode_media_query_error_base (this : ExpressiveCodeEngine) (h : ThemeHeap) :
  useDarkModeMediaQuery this = true ->
  styleVariants this <> [] ->
  (forall styleVariant, styleVariant ∈ styleVariants this -> is_Some (h !! theme styleVariant)) ->
  (forall r, r ∈ themes this -> is_Some (h !! r)) ->
  selectorReturns this h ->
  (forall css, exists out, scopeAndMinifyNestedCss css = Normal out) ->
  (throws (getThemeStyles this h) <-> ~ hasOppositeAlternate this h)
  /\
  (forall e h', getThemeStyles this h = (Throw e, h') ->
     e = Error (darkModeErrorMessage (themeLabels h (themes this))) /\
     forall r t, r ∈ themes this -> h !! r = Some t -> occursIn (themeLabel t) (errorMessage e)).
Proof.
  intros Hdark Hnonempty Hlive Hthemes Hselector Hcss.
  destruct (styleVariants this) as [|base alternates] eqn:Hvariants; [done|].
  destruct (Hlive base) as [baseTheme HbaseTheme]; [apply elem_of_cons; by left|].
  destruct (callThemeCssSelector_returns this h base Hselector)
    as [baseThemeSelector HbaseSelector]; [rewrite Hvariants; apply elem_of_cons; by left|].
  rewrite Hvariants in HbaseSelector.
  destruct (Hcss (baseThemeCss
      (join "," (filter (fun selector => truthy selector = true)
         [themeCssRoot this; baseThemeBlockInsideAlternateThemeRootOf this baseThemeSelector]))
      (renderDeclarations (cssVarDeclarations base))
      (join "," (filter (fun selector => truthy selector = true)
         ["&"; baseThemeBlockInsideAlternateThemeRootOf this baseThemeSelector]))
      (getCoreThemeStyles 0))) as [baseBlock HbaseBlock].
  set (alternateVariants := alternateVariantsFrom (cssVarDeclarations base) 1 alternates).
  set (altType := if ThemeType_eqb (type baseTheme) dark then light else dark).
  assert (forall v, v ∈ alternateVariants -> is_Some (h !! av_theme v)) as HliveAlt.
  { intros v (i & styleVariant & Hi & ->)%alternateVariantsFrom_elem.
    apply Hlive, elem_of_cons. right. apply list_elem_of_lookup. by exists i. }
  (* the run up to the search for the first variant of the other type *)
  assert (themeStyles this h =
          bind (match List.find (themeHasType h altType) alternateVariants with
                | None => throw (Error (darkModeErrorMessage (themeLabels h (themes this))))
                | Some firstAltVariant =>
                    do darkModeMediaQuery <-
                      liftCompletion
                        (scopeAndMinifyNestedCss
                           (darkModeMediaQueryCss altType (themeCssRoot this)
                              (notBaseThemeSelectorOf baseThemeSelector) firstAltVariant));
                    ret [darkModeMediaQuery]
                end)
               (fun mediaQuery =>
                  do perTheme <-
                    match themeCssSelector this with
                    | SelectorFalse => ret []
                    | SelectorFn _ =>
                        forPush (themeSelectorStyles this (notBaseThemeSelectorOf baseThemeSelector))
                          alternateVariants
                    end;
                  ret (baseBlock :: mediaQuery ++ perTheme)) h) as Hrun.
  { unfold themeStyles. rewrite Hvariants. simpl tail.
    unfold bind at 1. unfold ret at 1.
    unfold bind at 1. rewrite HbaseSelector.
    unfold bind at 1. unfold liftCompletion at 1. unfold baseThemeStyles. rewrite HbaseBlock.
    fold alternateVariants.
    unfold bind at 1. unfold bind at 3.
    unfold darkModeMediaQueryStyles. rewrite Hdark, Hvariants.
    unfold bind at 1. rewrite (readTheme_Some _ _ _ HbaseTheme). fold altType.
    unfold bind at 1. rewrite (findM_themeType h altType alternateVariants HliveAlt).
    destruct (List.find (themeHasType h altType) alternateVariants) as [firstAltVariant|]; [done|].
    unfold bind at 1. rewrite (themeLabels_run h (themes this) 0 Hthemes). done. }
  destruct (List.find (themeHasType h altType) alternateVariants) as [firstAltVariant|] eqn:Hfind.
  - (* a variant of the other type exists: the call returns *)
    destruct (Hcss (darkModeMediaQueryCss altType (themeCssRoot this)
                      (notBaseThemeSelectorOf baseThemeSelector) firstAltVariant))
      as [block Hblock].
    assert (exists perTheme,
              match themeCssSelector this with
              | SelectorFalse => ret []
              | SelectorFn _ =>
                  forPush (themeSelectorStyles this (notBaseThemeSelectorOf baseThemeSelector))
                    alternateVariants
              end h = (Normal perTheme, h)) as [perTheme HperTheme].
    { destruct (themeCssSelector this) as [f|] eqn:Hf; [|by exists []].
      apply forPush_returns.
      intros variant (i & styleVariant & Hi & Href)%alternateVariantsFrom_elem.
      unfold themeSelectorStyles.
      destruct (callThemeCssSelector_returns this h styleVariant Hselector)
        as [themeSelector Hcall].
      { rewrite Hvariants. apply elem_of_cons. right. apply list_elem_of_lookup. by exists i. }
      rewrite Href. unfold bind at 1. rewrite Hcall.
      destruct (isTruthy themeSelector); [|by eexists].
      destruct (Hcss (themeSelectorCss (themeCssRoot this) (interpolate themeSelector)
                        (notBaseThemeSelectorOf baseThemeSelector) variant)) as [css Hcss'].
      exists [css]. unfold bind, liftCompletion. by rewrite Hcss'. }
    assert (getThemeStyles this h =
            (Normal (wrapInCascadeLayer
                       (join EmptyString (baseBlock :: [block] ++ perTheme))
                       (cascadeLayer this)), h)) as Hreturns.
    { unfold getThemeStyles. unfold bind at 1. rewrite Hrun.
      unfold bind at 1. unfold bind at 1. unfold liftCompletion at 1. rewrite Hblock.
      unfold ret at 1. unfold bind at 1. rewrite HperTheme. done. }
    apply find_some in Hfind as [Hin%list_elem_of_In Htype].
    apply alternateVariantsFrom_elem in Hin as (i & styleVariant & Hi & Href).
    unfold themeHasType in Htype. rewrite Href in Htype.
    destruct (h !! theme styleVariant) as [t|] eqn:Ht; [|done].
    apply ThemeType_eqb_eq in Htype.
    split.
    + split.
      * intros (e & h' & Hthrow). rewrite Hreturns in Hthrow. discriminate.
      * intros Hnone. exfalso. apply Hnone.
        exists base, alternates, i, styleVariant, baseTheme, t.
        split_and!; try done. rewrite Htype. apply altType_opposite.
    + intros e h' Hthrow. rewrite Hreturns in Hthrow. discriminate.
  - (* no variant of the other type: the call throws the configuration error *)
    assert (getThemeStyles this h =
            (Throw (Error (darkModeErrorMessage (themeLabels h (themes this)))), h)) as Hthrows.
    { unfold getThemeStyles. unfold bind at 1. rewrite Hrun. done. }
    split.
    + split.
      * intros _ (base' & alternates' & i & styleVariant & baseTheme' & t &
                  Hvariants' & Hi & HbaseTheme' & Ht & Htype).
        rewrite Hvariants in Hvariants'. injection Hvariants' as <- <-.
        rewrite HbaseTheme in HbaseTheme'. injection HbaseTheme' as <-.
        assert (exists v, alternateVariants !! i = Some v /\ av_theme v = theme styleVariant)
          as (v & Hv & Href).
        { unfold alternateVariants. rewrite alternateVariantsFrom_lookup, Hi. by eexists. }
        apply list_elem_of_lookup_2, list_elem_of_In in Hv.
        apply (find_none _ _ Hfind) in Hv.
        unfold themeHasType in Hv. rewrite Href, Ht in Hv.
        rewrite Htype in Hv. unfold altType in Hv. by destruct (type baseTheme).
      * intros _. by eexists _, _.
    + intros e h' Hthrow. rewrite Hthrows in Hthrow. injection Hthrow as <- <-.
      split; [done|]. intros r t Hr Ht. simpl. unfold darkModeErrorMessage.
      apply occursIn_trans with (join ", " (themeLabels h (themes this))).
      * apply occursIn_join. unfold themeLabels. apply list_elem_of_omap.
        exists r. split; [done|]. by rewrite Ht.
      * apply occursIn_join. apply elem_of_cons. right. apply elem_of_cons. right.
        by apply list_elem_of_singleton.
Qed.

(** The message of lines 437-443 and the labels of line 441, written out. *)
Lemma darkModeErrorMessage_text h themes :
  darkModeErrorMessage (themeLabels h themes) =
  "The config option " +:+ dquote +:+ "useDarkModeMediaQuery: true" +:+ dquote +:+
  " requires at least one dark and one light theme, but the following themes were given: "
  +:+ String.concat ", "
        (omap (fun r => (fun t => name t +:+ " (" +:+ match type t with dark => "dark" | light => "light" end +:+ ")")
                        <$> h !! r)
           themes).
Proof. reflexivity. Qed.

(** What the call for the base theme's selector throws, [getThemeStyles]
    throws. *)
Lemma getThemeStyles_selector_throws (this : ExpressiveCodeEngine) h base alternates e h1 :
  styleVariants this = base :: alternates ->
  callThemeCssSelector (themeCssSelector this) (theme base) (styleVariants this) h
    = (Throw e, h1) ->
  getThemeStyles this h = (Throw e, h1).
Proof.
  intros Hvariants Hcall. unfold getThemeStyles, themeStyles.
  rewrite Hvariants in *. unfold bind at 1. unfold bind at 1. unfold ret at 1.
  unfold bind at 1. by rewrite Hcall.
Qed.

(** What post-processing of the base theme's block throws, [getThemeStyles]
    throws. *)
Lemma getThemeStyles_base_block_throws (this : ExpressiveCodeEngine) h base alternates
    baseThemeSelector h1 e :
  styleVariants this = base :: alternates ->
  callThemeCssSelector (themeCssSelector this) (theme base) (styleVariants this) h
    = (Normal baseThemeSelector, h1) ->
  baseThemeStyles this (cssVarDeclarations base) baseThemeSelector = Throw e ->
  getThemeStyles this h = (Throw e, h1).
Proof.
  intros Hvariants Hcall Hblock. unfold getThemeStyles, themeStyles.
  rewrite Hvariants in *. unfold bind at 1. unfold bind at 1. unfold ret at 1.
  unfold bind at 1. rewrite Hcall.
  unfold bind at 1. unfold liftCompletion at 1. by rewrite Hblock.
Qed.

(** C1, as the code has it. Take an engine with [useDarkModeMediaQuery] on
    whose style variants are those of its themes, in order, all theme
    references being defined.

    When the [themeCssSelector], called on these themes, returns without
    touching them, and CSS post-processing does not fail, [getThemeStyles]
    throws exactly when no style variant of index 1 or more has a theme of
    the type opposite to the base theme's; the message of what it throws
    contains [name (type)] of every configured theme, and with at least one
    theme it is the [Error] of lines 437-443, whose text is written out
    below.

    Whether or not such a variant exists, what the [themeCssSelector] call
    for the base theme throws (line 380), and what post-processing of the
    base theme's block throws (line 400), is thrown by [getThemeStyles]. *)
Theorem dark_mode_media_query_error (this : ExpressiveCodeEngine) (h : ThemeHeap) :
  useDarkModeMediaQuery this = true ->
  theme <$> styleVariants this = themes this ->
  (forall r, r ∈ themes this -> is_Some (h !! r)) ->
  (selectorReturns this h ->
   (forall css, exists out, scopeAndMinifyNestedCss css = Normal out) ->
   (throws (getThemeStyles this h) <-> ~ hasOppositeAlternate this h) /\
   (forall e h', getThemeStyles this h = (Throw e, h') ->
      (forall r t, r ∈ themes this -> h !! r = Some t ->
         occursIn (name t +:+ " (" +:+ match type t with dark => "dark" | light => "light" end +:+ ")")
           (errorMessage e)) /\
      (styleVariants this <> [] ->
       e = Error
         ("The config option " +:+ dquote +:+ "useDarkModeMediaQuery: true" +:+ dquote +:+
          " requires at least one dark and one light theme, but the following themes were given: "
          +:+ String.concat ", "
                (omap (fun r => (fun t => name t +:+ " (" +:+ match type t with dark => "dark" | light => "light" end +:+ ")")
                                <$> h !! r)
                   (themes this))))))
  /\
  (forall base alternates,
     styleVariants this = base :: alternates ->
     (forall e h1,
        callThemeCssSelector (themeCssSelector this) (theme base) (styleVariants this) h
          = (Throw e, h1) ->
        getThemeStyles this h = (Throw e, h1)) /\
     (forall baseThemeSelector h1 e,
        callThemeCssSelector (themeCssSelector this) (theme base) (styleVariants this) h
          = (Normal baseThemeSelector, h1) ->
        baseThemeStyles this (cssVarDeclarations base) baseThemeSelector = Throw e ->
        getThemeStyles this h = (Throw e, h1))).
Proof.
  intros Hdark Haligned Hthemes. split.
  - intros Hselector Hcss.
    destruct (styleVariants this) as [|base alternates] eqn:Hvariants.
    + (* no theme at all: the destructuring at line 377 fails *)
      assert (getThemeStyles this h =
              (Throw (TypeError "Cannot destructure property of undefined"), h)) as Hrun.
      { unfold getThemeStyles, themeStyles. by rewrite Hvariants. }
      split.
      * split.
        -- intros _ (base & alternates & i & ? & ? & ? & Hsome & _).
           by rewrite Hvariants in Hsome.
        -- intros _. by eexists _, _.
      * intros e h' _. split; [|done].
        intros r t Hr. rewrite <- Haligned in Hr. by apply elem_of_nil in Hr.
    + destruct (dark_mode_media_query_error_base this h) as [Hiff Hmessage]; try done.
      * by rewrite Hvariants.
      * intros styleVariant Hin. apply Hthemes. rewrite <- Haligned.
        rewrite Hvariants in Hin. by apply list_elem_of_fmap_2.
      * split; [exact Hiff|]. intros e h' Hthrow.
        destruct (Hmessage e h' Hthrow) as [-> Hnames]. split.
        -- intros r t Hr Ht. exact (Hnames r t Hr Ht).
        -- intros _. exact (f_equal Error (darkModeErrorMessage_text h (themes this))).
  - intros base alternates Hvariants. split.
    + intros e h1. by apply getThemeStyles_selector_throws with alternates.
    + intros baseThemeSelector h1 e. by apply getThemeStyles_base_block_throws with alternates.
Qed.

End ThemeStyles.

(** ** The constructor *)

Section Construction.
Context `{Externals}.

(** *** The first three steps, in closed form *)

Lemma transferDeprecatedTheme_run w :
  transferDeprecatedTheme w = (Normal tt, setConfigObject (transferred (configObject w)) w).
Proof.
  destruct w as [h config trace]. unfold transferDeprecatedTheme, transferred. simpl.
  unfold bind, readConfig, bind, getState, ret. simpl.
  destruct (Config.theme config) as [deprecatedTheme|], (Config.themes config); reflexivity.
Qed.

Lemma initialThemes_run w :
  initialThemes w =
  (Normal (initialThemesOf (configObject w) (themeObjects w)).1,
   setThemeObjects (initialThemesOf (configObject w) (themeObjects w)).2 w).
Proof.
  destruct w as [h config trace]. unfold initialThemes, initialThemesOf. simpl.
  unfold bind, readConfig, bind, getState, ret. simpl.
  destruct (Config.themes config) as [[t|ts]|]; reflexivity.
Qed.

Lemma initial_steps_run w :
  (run transferDeprecatedTheme; initialThemes) w =
  (Normal (initialThemesOf (transferred (configObject w)) (themeObjects w)).1,
   afterInitialThemes w).
Proof.
  unfold bind. rewrite transferDeprecatedTheme_run, initialThemes_run. done.
Qed.

(** *** What the later steps may change *)

Section Footprint.
(** How the theme objects and the record of calls may move. *)
Variable Ph : ThemeHeap -> ThemeHeap -> Prop.
Variable Pt : list Call -> list Call -> Prop.
Hypothesis Ph_refl : forall h, Ph h h.
Hypothesis Ph_trans : forall h1 h2 h3, Ph h1 h2 -> Ph h2 h3 -> Ph h1 h3.
Hypothesis Pt_refl : forall t, Pt t t.
Hypothesis Pt_trans : forall t1 t2 t3, Pt t1 t2 -> Pt t2 t3 -> Pt t1 t3.

Lemma within_refl w : within Ph Pt w w.
Proof using Ph_refl Pt_refl. by split_and!. Qed.

Lemma within_trans w1 w2 w3 : within Ph Pt w1 w2 -> within Ph Pt w2 w3 -> within Ph Pt w1 w3.
Proof using Ph_trans Pt_trans.
  intros (Hc & Hh & Ht) (Hc' & Hh' & Ht'). split_and!; [congruence | eauto..].
Qed.

Lemma within_onThemes {A} (m : St ThemeHeap A) :
  (forall h, Ph h (m h).2) -> moves (within Ph Pt) (onThemes m).
Proof using Pt_refl.
  intros Hm w. unfold onThemes, zoom. specialize (Hm (themeObjects w)).
  destruct (m (themeObjects w)) as [outcome h']. by split_and!.
Qed.

Lemma within_record c : (forall t, Pt t (t ++ [c])) -> moves (within Ph Pt) (record c).
Proof using Ph_refl. intros Hc w. by split_and!. Qed.

Lemma within_customizeAndAdjustTheme customizeTheme minContrast plugins overrides theme index :
  (forall customize, customizeTheme = Some customize -> forall r h, Ph h (customize r h).2) ->
  (PrimFloat.ltb 0 minContrast = true ->
   (forall t r i, Pt t (t ++ [ResolveStyleSettingsCall r i])) /\
   (forall t r ratio bg, Pt t (t ++ [EnsureMinSyntaxHighlightingColorContrastCall r ratio bg])) /\
   (forall h r t bg,
      h !! r = Some t ->
      Ph h (<[r := ensureMinSyntaxHighlightingColorContrast minContrast bg t]> h))) ->
  moves (within Ph Pt)
    (customizeAndAdjustTheme customizeTheme minContrast plugins overrides theme index).
Proof using Ph_refl Ph_trans Pt_refl Pt_trans.
  intros Hcustomize Hcontrast. unfold customizeAndAdjustTheme.
  apply moves_bind; [apply within_trans| |].
  { destruct customizeTheme as [customize|]; [|apply moves_ret, within_refl].
    apply moves_bind; [apply within_trans| |intros; apply moves_ret, within_refl].
    apply within_onThemes. intros h. by apply Hcustomize. }
  intros theme'. apply moves_bind; [apply within_trans| |intros; apply moves_ret, within_refl].
  destruct (PrimFloat.ltb 0 minContrast); [|apply moves_ret, within_refl].
  destruct Hcontrast as (Hresolve & Hensure & Hinsert); [done|].
  apply moves_bind; [apply within_trans|by apply within_record|]. intros _.
  apply moves_bind; [apply within_trans|apply moves_getState, within_refl|]. intros w.
  apply moves_bind; [apply within_trans|apply moves_liftCompletion, within_refl|].
  intros themeStyleSettings.
  apply moves_bind; [apply within_trans|by apply within_record|]. intros _.
  apply within_onThemes. intros h. unfold updateTheme, bind, readTheme, modifyState.
  destruct (h !! theme') eqn:Hlookup; simpl; [by apply Hinsert | apply Ph_refl].
Qed.

Lemma readOnly_defaultUseDarkModeMediaQuery themes :
  readOnly (defaultUseDarkModeMediaQuery themes).
Proof.
  unfold defaultUseDarkModeMediaQuery.
  destruct themes as [|first [|second [|third rest]]]; try apply readOnly_ret.
  apply readOnly_bind; [apply readOnly_readTheme|]. intros t0.
  apply readOnly_bind; [apply readOnly_readTheme|]. intros t1. apply readOnly_ret.
Qed.

(** From line 238 on, the constructor leaves the configuration object alone,
    and changes theme objects and records calls only through
    [customizeTheme] and, when the minimum contrast is positive, through the
    contrast pass. *)
Lemma constructor_footprint w :
  let config := transferred (configObject w) in
  (forall customize, Config.customizeTheme config = Some customize ->
   forall r h, Ph h (customize r h).2) ->
  (PrimFloat.ltb 0 (nullish (Config.minSyntaxHighlightingColorContrast config) 5.5%float) = true ->
   (forall t r i, Pt t (t ++ [ResolveStyleSettingsCall r i])) /\
   (forall t r ratio bg, Pt t (t ++ [EnsureMinSyntaxHighlightingColorContrastCall r ratio bg])) /\
   (forall h r t bg,
      h !! r = Some t ->
      Ph h (<[r := ensureMinSyntaxHighlightingColorContrast
                     (nullish (Config.minSyntaxHighlightingColorContrast config) 5.5%float)
                     bg t]> h))) ->
  (forall t themes, Pt t (t ++ [ResolveStyleVariantsCall themes])) ->
  within Ph Pt (afterInitialThemes w) (constructor w).2.
Proof using Ph_refl Ph_trans Pt_refl Pt_trans.
  intros config Hcustomize Hcontrast Hvariants.
  unfold constructor. unfold bind at 1. rewrite transferDeprecatedTheme_run.
  unfold bind at 1. rewrite initialThemes_run. simpl configObject. simpl themeObjects.
  fold config. unfold bind at 1. unfold readConfig at 1, bind at 1, getState at 1, ret at 1.
  simpl configObject. fold config.
  change (setThemeObjects _ _) with (afterInitialThemes w).
  generalize (afterInitialThemes w). intros w0. revert w0.
  apply moves_bind; [apply within_trans| |].
  { destruct (Config.useDarkModeMediaQuery config); [apply moves_ret, within_refl|].
    apply within_onThemes. intros h.
    rewrite (readOnly_defaultUseDarkModeMediaQuery _ h). apply Ph_refl. }
  intros useDark. apply moves_bind; [apply within_trans| |].
  { apply moves_mapM_index; [apply within_refl | apply within_trans|]. intros theme index.
    by apply within_customizeAndAdjustTheme. }
  intros themes. apply moves_bind; [apply within_trans|by apply within_record|]. intros _.
  apply moves_bind; [apply within_trans|apply moves_getState, within_refl|]. intros w1.
  apply moves_bind; [apply within_trans|apply moves_liftCompletion, within_refl|].
  intros variants. apply moves_ret, within_refl.
Qed.

End Footprint.

(** *** Successful constructions, step by step *)

Lemma constructor_Normal w e w' :
  constructor w = (Normal e, w') ->
  let config := transferred (configObject w) in
  let themes0 := (initialThemesOf config (themeObjects w)).1 in
  exists w1 w2,
    match Config.useDarkModeMediaQuery config with
    | Some b => ret b
    | None => onThemes (defaultUseDarkModeMediaQuery themes0)
    end (afterInitialThemes w) = (Normal (useDarkModeMediaQuery e), w1) /\
    mapM_index
      (customizeAndAdjustTheme (Config.customizeTheme config)
         (minSyntaxHighlightingColorContrast e) (plugins e) (styleOverrides e))
      0 themes0 w1 = (Normal (themes e), w2) /\
    minSyntaxHighlightingColorContrast e =
      nullish (Config.minSyntaxHighlightingColorContrast config) 5.5%float /\
    customizeTheme e = Config.customizeTheme config.
Proof.
  intros Hrun config themes0. unfold constructor in Hrun.
  unfold bind at 1 in Hrun. rewrite transferDeprecatedTheme_run in Hrun.
  unfold bind at 1 in Hrun. rewrite initialThemes_run in Hrun.
  simpl configObject in Hrun. simpl themeObjects in Hrun.
  unfold bind at 1 in Hrun.
  unfold readConfig at 1, bind at 1, getState at 1, ret at 1 in Hrun.
  simpl configObject in Hrun.
  change (setThemeObjects _ _) with (afterInitialThemes w) in Hrun.
  fold config in Hrun. fold themes0 in Hrun.
  apply bind_Normal in Hrun as (useDark & w1 & HuseDark & Hrun).
  apply bind_Normal in Hrun as (themes & w2 & Hthemes & Hrun).
  apply bind_Normal in Hrun as ([] & w3 & _ & Hrun).
  apply bind_Normal in Hrun as (w4 & w5 & _ & Hrun).
  apply bind_Normal in Hrun as (variants & w6 & _ & Hrun).
  injection Hrun as <- _. simpl. by exists w1, w2.
Qed.

Lemma transferred_fields (config : ExpressiveCodeEngineConfig) :
  Config.useDarkModeMediaQuery (transferred config) = Config.useDarkModeMediaQuery config /\
  Config.minSyntaxHighlightingColorContrast (transferred config)
    = Config.minSyntaxHighlightingColorContrast config /\
  Config.customizeTheme (transferred config) = Config.customizeTheme config.
Proof.
  unfold transferred. by destruct (Config.theme config), (Config.themes config).
Qed.

Lemma transferred_withCustomizeTheme customize (config : ExpressiveCodeEngineConfig) :
  Config.themes (transferred (Config.withCustomizeTheme customize config))
    = Config.themes (transferred config) /\
  Config.useDarkModeMediaQuery (transferred (Config.withCustomizeTheme customize config))
    = Config.useDarkModeMediaQuery config.
Proof.
  destruct config as [themes ? ? ? ? ? ? ? ? ? ? ? ? ? ? deprecatedTheme].
  unfold transferred. simpl. by destruct deprecatedTheme, themes.
Qed.

Lemma initialThemesOf_ext (config1 config2 : ExpressiveCodeEngineConfig) h :
  Config.themes config1 = Config.themes config2 ->
  initialThemesOf config1 h = initialThemesOf config2 h.
Proof. unfold initialThemesOf. by intros ->. Qed.

Lemma defaultUseDarkModeMediaQuery_Normal themes h b h' :
  defaultUseDarkModeMediaQuery themes h = (Normal b, h') ->
  b = true <->
  exists first second t0 t1,
    themes = [first; second] /\ h !! first = Some t0 /\ h !! second = Some t1 /\
    type t0 <> type t1.
Proof.
  unfold defaultUseDarkModeMediaQuery.
  destruct themes as [|first [|second [|third rest]]];
    try (intros [= <- _]; split; [done | by intros (? & ? & ? & ? & ? & _)]).
  unfold bind, readTheme, ret.
  destruct (h !! first) as [t0|] eqn:Hfirst; [|done].
  destruct (h !! second) as [t1|] eqn:Hsecond; [|done].
  intros [= <- _]. split.
  - intros Hneq. exists first, second, t0, t1. split_and!; try done.
    intros Heq. rewrite Heq in Hneq. by destruct (type t1).
  - intros (first' & second' & t0' & t1' & [= <- <-] & Hfirst' & Hsecond' & Hneq).
    rewrite Hfirst in Hfirst'. rewrite Hsecond in Hsecond'.
    injection Hfirst' as <-. injection Hsecond' as <-.
    destruct (type t0), (type t1); done.
Qed.

(** The flag the constructor resolves when the option is left out is the
    value of line 239 in the state line 237 has left. *)
Lemma constructor_default_useDarkModeMediaQuery w e w' :
  Config.useDarkModeMediaQuery (configObject w) = None ->
  constructor w = (Normal e, w') ->
  let h0 := themeObjects (afterInitialThemes w) in
  defaultUseDarkModeMediaQuery
    (initialThemesOf (transferred (configObject w)) (themeObjects w)).1 h0
  = (Normal (useDarkModeMediaQuery e), h0).
Proof.
  intros Hunset Hrun h0.
  apply constructor_Normal in Hrun as (w1 & w2 & HuseDark & _).
  destruct (transferred_fields (configObject w)) as (-> & _) in HuseDark.
  rewrite Hunset in HuseDark. unfold onThemes, zoom in HuseDark. fold h0 in HuseDark.
  pose proof (readOnly_defaultUseDarkModeMediaQuery
                (initialThemesOf (transferred (configObject w)) (themeObjects w)).1 h0) as Hsame.
  destruct (defaultUseDarkModeMediaQuery _ h0) as [outcome h1]. simpl in Hsame. subst h1.
  by injection HuseDark as -> _.
Qed.

(** C10. With [useDarkModeMediaQuery] left out, the flag of the constructed
    engine is what line 239 computes in the state lines 232-237 have left,
    before any [customizeTheme] call; and constructing from the same
    configuration with any other [customizeTheme] gives the same flag. *)
Theorem customizeTheme_cannot_change_useDarkModeMediaQuery w e w' :
  Config.useDarkModeMediaQuery (configObject w) = None ->
  constructor w = (Normal e, w') ->
  (exists themes0 w0,
     (run transferDeprecatedTheme; initialThemes) w = (Normal themes0, w0) /\
     defaultUseDarkModeMediaQuery themes0 (themeObjects w0)
       = (Normal (useDarkModeMediaQuery e), themeObjects w0))
  /\
  (forall otherCustomizeTheme e2 w2,
     constructor
       (setConfigObject (Config.withCustomizeTheme otherCustomizeTheme (configObject w)) w)
       = (Normal e2, w2) ->
     useDarkModeMediaQuery e2 = useDarkModeMediaQuery e).
Proof.
  intros Hunset Hrun. split.
  - eexists _, _. split; [apply initial_steps_run|].
    by apply (constructor_default_useDarkModeMediaQuery w e w').
  - intros other e2 w2 Hrun2.
    apply constructor_default_useDarkModeMediaQuery in Hrun; [|done].
    apply constructor_default_useDarkModeMediaQuery in Hrun2; [|done].
    unfold afterInitialThemes in Hrun, Hrun2.
    cbn [themeObjects configObject setConfigObject] in Hrun, Hrun2.
    rewrite (initialThemesOf_ext _ (transferred (configObject w))) in Hrun2
      by apply transferred_withCustomizeTheme.
    rewrite Hrun in Hrun2. by injection Hrun2 as ->.
Qed.

(** C9. When the configuration object holds the deprecated [theme] and no
    [themes], the constructor changes that object in place: whether or not
    construction then succeeds, the object ends up with [themes] set to the
    migrated list and without [theme], its other properties as they were. *)
Theorem deprecated_theme_transfer_mutates_config w deprecatedTheme :
  Config.theme (configObject w) = Some deprecatedTheme ->
  Config.themes (configObject w) = None ->
  let migrated :=
    ThemeArray match deprecatedTheme with
               | ThemeArray ts => ts
               | OneTheme t => [t]
               end in
  let config' := configObject (constructor w).2 in
  config' = Config.deleteTheme (Config.setThemes (Some migrated) (configObject w)) /\
  Config.themes config' = Some migrated /\
  Config.theme config' = None.
Proof.
  intros Htheme Hthemes migrated config'.
  assert (config' = Config.deleteTheme (Config.setThemes (Some migrated) (configObject w)))
    as ->; [|done].
  destruct (constructor_footprint (fun _ _ => True) (fun _ _ => True)) with (w := w)
    as (Hconfig & _); try done.
  unfold config'. rewrite Hconfig. simpl. unfold transferred. by rewrite Htheme, Hthemes.
Qed.

(** *** The contrast pass *)

Lemma not_positive (ratio : float) :
  PrimFloat.leb ratio 0 = true -> PrimFloat.ltb 0 ratio = false.
Proof.
  rewrite leb_spec, ltb_spec. unfold SFleb, SFltb.
  replace (Prim2SF 0) with (S754_zero false) by reflexivity.
  destruct (Prim2SF ratio) as [sign|sign| |sign mantissa exponent]; simpl;
    try destruct sign; simpl; congruence.
Qed.

Lemma customizeAndAdjustTheme_skips customizeTheme ratio plugins overrides theme index w :
  PrimFloat.ltb 0 ratio = false ->
  customizeAndAdjustTheme customizeTheme ratio plugins overrides theme index w =
  match customizeTheme with
  | None => (Normal theme, w)
  | Some customize =>
      onThemes (do replacement <- customize theme; ret (nullish replacement theme)) w
  end.
Proof.
  intros Hskip. unfold customizeAndAdjustTheme. rewrite Hskip.
  destruct customizeTheme as [customize|]; [|done].
  unfold bind, onThemes, zoom, ret.
  by destruct (customize theme (themeObjects w)) as [[replacement|e] h'].
Qed.

Lemma customizeAndAdjustTheme_Normal customizeTheme ratio plugins overrides theme index w
    theme' w' :
  customizeAndAdjustTheme customizeTheme ratio plugins overrides theme index w
    = (Normal theme', w') ->
  match customizeTheme with
  | None => theme' = theme
  | Some customize =>
      exists replacement h1,
        customize theme (themeObjects w) = (Normal replacement, h1) /\
        theme' = nullish replacement theme
  end.
Proof.
  unfold customizeAndAdjustTheme.
  intros (customized & w1 & Hcustomize & Hrest)%bind_Normal.
  apply bind_Normal in Hrest as ([] & w2 & _ & Hret). injection Hret as <- _.
  destruct customizeTheme as [customize|]; [|by injection Hcustomize as <- _].
  apply bind_Normal in Hcustomize as (replacement & w3 & Hcall & Hret).
  injection Hret as <- _. unfold onThemes, zoom in Hcall.
  destruct (customize theme (themeObjects w)) as [outcome h1].
  injection Hcall as -> _. by exists replacement, h1.
Qed.

(** C5. With [minSyntaxHighlightingColorContrast] set to a value [<= 0] the
    constructor never gets to the contrast pass: it records no call of
    [resolveStyleSettings] or [ensureMinSyntaxHighlightingColorContrast];
    the callback of [this.themes.map] comes down to the [customizeTheme]
    call; and without a [customizeTheme] the theme objects are, at the end
    of construction, as line 237 left them (when themes were given: as the
    caller supplied them). With the option left out, the resolved value is
    5.5. *)
Theorem contrast_pass_skipped w :
  (forall ratio,
     Config.minSyntaxHighlightingColorContrast (configObject w) = Some ratio ->
     PrimFloat.leb ratio 0 = true ->
     onlyResolveStyleVariantsAdded (calls w) (calls (constructor w).2) /\
     (forall customizeTheme plugins overrides theme index w0,
        customizeAndAdjustTheme customizeTheme ratio plugins overrides theme index w0 =
        match customizeTheme with
        | None => (Normal theme, w0)
        | Some customize =>
            onThemes (do replacement <- customize theme; ret (nullish replacement theme)) w0
        end) /\
     (Config.customizeTheme (configObject w) = None ->
      themeObjects (constructor w).2
        = themeObjects ((run transferDeprecatedTheme; initialThemes) w).2 /\
      (is_Some (Config.themes (configObject w)) \/ is_Some (Config.theme (configObject w)) ->
       themeObjects (constructor w).2 = themeObjects w)))
  /\
  (Config.minSyntaxHighlightingColorContrast (configObject w) = None ->
   forall e w', constructor w = (Normal e, w') ->
   minSyntaxHighlightingColorContrast e = 5.5%float).
Proof.
  destruct (transferred_fields (configObject w)) as (_ & Hratio & Hcustomize).
  split.
  - intros ratio Hset Hle. apply not_positive in Hle. split_and!.
    + destruct (constructor_footprint (fun _ _ => True) onlyResolveStyleVariantsAdded)
        with (w := w) as (_ & _ & Hcalls); try done.
      * intros t c Hc. by left.
      * intros t1 t2 t3 H12 H23 c Hc.
        destruct (H23 c Hc) as [Hc2|Hc2]; [by apply H12 | by right].
      * rewrite Hratio, Hset. simpl. by rewrite Hle.
      * intros t themes c [Hc|Hc%list_elem_of_singleton]%elem_of_app; [by left|].
        right. by eexists.
    + intros. by apply customizeAndAdjustTheme_skips.
    + intros Hnone.
      destruct (constructor_footprint (fun h h' => h' = h) (fun _ _ => True))
        with (w := w) as (_ & Hheap & _); try done.
      * congruence.
      * rewrite Hcustomize, Hnone. done.
      * rewrite Hratio, Hset. simpl. by rewrite Hle.
      * rewrite initial_steps_run. simpl. split; [done|].
        rewrite Hheap. unfold afterInitialThemes, initialThemesOf, transferred. simpl.
        intros Hgiven.
        destruct (Config.themes (configObject w)) as [[t|ts]|] eqn:Hthemes;
          destruct (Config.theme (configObject w)) as [[t'|ts']|] eqn:Htheme;
          simpl; rewrite ?Hthemes; try done.
        by destruct Hgiven as [[? ?]|[? ?]].
  - intros Hunset e w' Hrun.
    apply constructor_Normal in Hrun as (w1 & w2 & _ & _ & -> & _).
    by rewrite Hratio, Hunset.
Qed.

(** C6, as the code has it. When the configuration holds the deprecated
    single [theme] and no [themes], the constructed engine has exactly one
    theme: the supplied one when there is no [customizeTheme] or when
    [customizeTheme] returns nothing for it, and otherwise the theme that
    [customizeTheme] returned for it. No diagnostic is written on the way. *)
Theorem deprecated_theme_migration w t e w' :
  Config.theme (configObject w) = Some (OneTheme t) ->
  Config.themes (configObject w) = None ->
  constructor w = (Normal e, w') ->
  (exists t',
     themes e = [t'] /\
     match Config.customizeTheme (configObject w) with
     | None => t' = t
     | Some customize =>
         exists replacement h1,
           customize t (themeObjects w) = (Normal replacement, h1) /\
           t' = nullish replacement t
     end)
  /\
  (forall message, LoggerCall message ∈ calls w' -> LoggerCall message ∈ calls w).
Proof.
  intros Htheme Hthemes Hrun. split.
  - destruct (transferred_fields (configObject w)) as (_ & _ & Hcustomize).
    apply constructor_Normal in Hrun as (w1 & w2 & HuseDark & Hmap & _ & _).
    assert (Config.themes (transferred (configObject w)) = Some (ThemeArray [t])) as Hmigrated.
    { unfold transferred. by rewrite Htheme, Hthemes. }
    unfold initialThemesOf in Hmap. rewrite Hmigrated in Hmap. simpl in Hmap.
    assert (themeObjects w1 = themeObjects w) as Hheap.
    { unfold afterInitialThemes, initialThemesOf in HuseDark. rewrite Hmigrated in HuseDark.
      simpl in HuseDark.
      destruct (Config.useDarkModeMediaQuery (transferred (configObject w))).
      - by injection HuseDark as _ <-.
      - unfold onThemes, zoom in HuseDark. simpl in HuseDark.
        pose proof (readOnly_defaultUseDarkModeMediaQuery [t] (themeObjects w)) as Hsame.
        destruct (defaultUseDarkModeMediaQuery [t] (themeObjects w)) as [outcome h1].
        simpl in Hsame. injection HuseDark as _ <-. by subst h1. }
    apply bind_Normal in Hmap as (t' & w3 & Hfirst & Hrest).
    injection Hrest as Hrest _. exists t'. split; [done|].
    apply customizeAndAdjustTheme_Normal in Hfirst.
    rewrite Hcustomize, Hheap in Hfirst. exact Hfirst.
  - destruct (constructor_footprint (fun _ _ => True)
                (fun before after =>
                   forall message, LoggerCall message ∈ after -> LoggerCall message ∈ before))
      with (w := w) as (_ & _ & Hcalls); try done.
    + intros t1 t2 t3 H12 H23 message Hin. by apply H12, H23.
    + intros _. split_and!; try done.
      * intros trace r i message [Hin|Hin%list_elem_of_singleton]%elem_of_app; done.
      * intros trace r ratio bg message [Hin|Hin%list_elem_of_singleton]%elem_of_app; done.
    + intros trace themes message [Hin|Hin%list_elem_of_singleton]%elem_of_app; done.
    + rewrite Hrun in Hcalls. exact Hcalls.
Qed.

(** *** The default of [useDarkModeMediaQuery], seen from the finished engine *)

Lemma mapM_index_without_customizeTheme ratio plugins overrides start themes0 w themes w' :
  mapM_index (customizeAndAdjustTheme None ratio plugins overrides) start themes0 w
    = (Normal themes, w') ->
  themes = themes0.
Proof.
  revert start w themes w'. induction themes0 as [|r rest IH]; intros start w themes w'; simpl.
  - by intros [= <- _].
  - intros (r' & w1 & Hfirst & Hrest)%bind_Normal.
    apply bind_Normal in Hrest as (rest' & w2 & Hrest & Hret). injection Hret as <- _.
    apply customizeAndAdjustTheme_Normal in Hfirst. simpl in Hfirst. subst r'.
    by rewrite (IH _ _ _ _ Hrest).
Qed.

(** Without a [customizeTheme], and with a contrast pass that leaves the
    type of a theme alone, the flag resolved for a configuration that leaves
    [useDarkModeMediaQuery] out can be read off the engine's own [themes]
    once construction is over. *)
Lemma useDarkModeMediaQuery_default_of_engine_themes w e w' :
  Config.useDarkModeMediaQuery (configObject w) = None ->
  Config.customizeTheme (configObject w) = None ->
  (forall ratio bg t, type (ensureMinSyntaxHighlightingColorContrast ratio bg t) = type t) ->
  constructor w = (Normal e, w') ->
  useDarkModeMediaQuery e = true <->
  exists first second t0 t1,
    themes e = [first; second] /\
    themeObjects w' !! first = Some t0 /\
    themeObjects w' !! second = Some t1 /\
    type t0 <> type t1.
Proof.
  intros Hunset Hnone Htype Hrun.
  destruct (transferred_fields (configObject w)) as (_ & _ & Hcustomize).
  pose proof (constructor_default_useDarkModeMediaQuery w e w' Hunset Hrun) as Hflag.
  apply defaultUseDarkModeMediaQuery_Normal in Hflag.
  (* the engine's themes are the initial ones *)
  assert (themes e = (initialThemesOf (transferred (configObject w)) (themeObjects w)).1)
    as Hthemes.
  { pose proof Hrun as Hrun'.
    apply constructor_Normal in Hrun' as (w1 & w2 & _ & Hmap & _ & _).
    rewrite Hcustomize, Hnone in Hmap. by apply mapM_index_without_customizeTheme in Hmap. }
  (* and the types of the theme objects have not moved *)
  destruct (constructor_footprint
              (fun h h' => forall r, type <$> h' !! r = type <$> h !! r) (fun _ _ => True))
    with (w := w) as (_ & Htypes & _); try done.
  { intros h1 h2 h3 H12 H23 r. by rewrite H23. }
  { rewrite Hcustomize, Hnone. done. }
  { intros _. split_and!; try done. intros h r t bg Hlookup r'.
    destruct (decide (r = r')) as [<-|Hne].
    - rewrite lookup_insert_eq, Hlookup. simpl. by rewrite Htype.
    - by rewrite lookup_insert_ne. }
  rewrite Hrun in Htypes. cbn [snd] in Htypes.
  rewrite Hflag, Hthemes. clear Hflag.
  split; intros (first & second & t0 & t1 & Hlist & Hfirst & Hsecond & Hneq);
    exists first, second; unfold ThemeRef in *.
  - pose proof (Htypes first) as Hfirst'. pose proof (Htypes second) as Hsecond'.
    rewrite Hfirst in Hfirst'. rewrite Hsecond in Hsecond'.
    destruct (themeObjects w' !! first) as [t0'|]; [|done].
    destruct (themeObjects w' !! second) as [t1'|]; [|done].
    injection Hfirst' as Hfirst'. injection Hsecond' as Hsecond'.
    exists t0', t1'. split_and!; try done. by rewrite Hfirst', Hsecond'.
  - pose proof (Htypes first) as Hfirst'. pose proof (Htypes second) as Hsecond'.
    rewrite Hfirst in Hfirst'. rewrite Hsecond in Hsecond'.
    destruct (themeObjects (afterInitialThemes w) !! first) as [t0'|]; [|done].
    destruct (themeObjects (afterInitialThemes w) !! second) as [t1'|]; [|done].
    injection Hfirst' as Hfirst'. injection Hsecond' as Hsecond'.
    exists t0', t1'. split_and!; try done. by rewrite <- Hfirst', <- Hsecond'.
Qed.

(** C4, as the code has it. When [useDarkModeMediaQuery] is left out of the
    configuration, the flag of the constructed engine is true exactly when
    the themes list as line 237 resolves it from the configuration (the
    given list, the migrated deprecated theme, or the two built-in themes)
    has two elements whose theme types differ at that point, before
    [customizeTheme] and the contrast pass run. When no [customizeTheme] is
    configured and the contrast pass leaves the type of a theme alone, the
    same is true of the [themes] of the finished engine and the types they
    have when construction is over. *)
Theorem useDarkModeMediaQuery_default w e w' :
  Config.useDarkModeMediaQuery (configObject w) = None ->
  constructor w = (Normal e, w') ->
  (exists resolvedThemes w0,
     (run transferDeprecatedTheme; initialThemes) w = (Normal resolvedThemes, w0) /\
     (useDarkModeMediaQuery e = true <->
      exists first second t0 t1,
        resolvedThemes = [first; second] /\
        themeObjects w0 !! first = Some t0 /\
        themeObjects w0 !! second = Some t1 /\
        type t0 <> type t1))
  /\
  (Config.customizeTheme (configObject w) = None ->
   (forall ratio bg t, type (ensureMinSyntaxHighlightingColorContrast ratio bg t) = type t) ->
   (useDarkModeMediaQuery e = true <->
    exists first second t0 t1,
      themes e = [first; second] /\
      themeObjects w' !! first = Some t0 /\
      themeObjects w' !! second = Some t1 /\
      type t0 <> type t1)).
Proof.
  intros Hunset Hrun. split.
  - eexists _, _. split; [apply initial_steps_run|].
    eapply defaultUseDarkModeMediaQuery_Normal.
    by apply (constructor_default_useDarkModeMediaQuery w e w').
  - intros Hnone Htype.
    by apply (useDarkModeMediaQuery_default_of_engine_themes w e w').
Qed.

End Construction.

(** ** More on [getThemeStyles] and [getBaseStyles] *)

Section MoreThemeStyles.
Context `{Externals}.

(** X4. On a [Map] the diff mapping is a subsequence of the variant's
    declarations: it keeps their order, repeats no name, and is no longer
    than they are. *)
Theorem diffVars_keeps_order baseVars declarations :
  Map_wf declarations ->
  sublist (diffVars baseVars declarations) declarations /\
  Map_wf (diffVars baseVars declarations) /\
  length (diffVars baseVars declarations) <= length declarations.
Proof.
  intros Hwf. rewrite diffVars_filter by done.
  assert (sublist (List.filter (differsFromBase baseVars) declarations) declarations) as Hsub.
  { clear Hwf. induction declarations as [|d rest IH]; simpl; [done|].
    destruct (differsFromBase baseVars d); [by apply sublist_skip | by apply sublist_cons]. }
  split_and!; [done | by apply Map_wf_filter | by apply sublist_length].
Qed.

(** The search for the first variant of a type, when it succeeds. *)
Lemma findM_themeType_first h ty (l : list AlternateVariant) x h' :
  findM (fun variant => do t <- readTheme (av_theme variant); ret (ThemeType_eqb (type t) ty)) l h
    = (Normal (Some x), h') ->
  h' = h /\
  exists i,
    l !! i = Some x /\
    themeHasType h ty x = true /\
    forall j y, j < i -> l !! j = Some y ->
                exists t, h !! av_theme y = Some t /\ type t <> ty.
Proof.
  induction l as [|v rest IH]; simpl; [done|].
  intros (b & h1 & Hread & Hrest)%bind_Normal.
  apply bind_Normal in Hread as (t & h2 & Hread & Hret).
  unfold readTheme in Hread. destruct (h !! av_theme v) as [t'|] eqn:Hlookup; [|done].
  injection Hread as <- <-. injection Hret as <- <-.
  destruct (ThemeType_eqb (type t') ty) eqn:Htype.
  - injection Hrest as <- <-. split; [done|]. exists 0. split_and!; [done| |lia].
    unfold themeHasType. by rewrite Hlookup.
  - destruct (IH Hrest) as (-> & i & Hi & Hx & Hbefore). split; [done|].
    exists (Datatypes.S i). split_and!; [done..|].
    intros [|j] y Hj Hy.
    + injection Hy as <-. exists t'. split; [done|].
      intros Heq. apply ThemeType_eqb_eq in Heq. congruence.
    + apply (Hbefore j y); [lia | done].
Qed.

(** X5. With [useDarkModeMediaQuery] on and a [themeCssSelector] that leaves
    the themes alone, the second part of the stylesheet is the media query
    of the first style variant, in theme order, whose theme has the type
    opposite to the base theme's: every variant before it has the base
    theme's type. *)
Theorem media_query_of_first_opposite_variant (this : ExpressiveCodeEngine) h fragments h' :
  useDarkModeMediaQuery this = true ->
  selectorReadOnly (themeCssSelector this) ->
  themeStyles this h = (Normal fragments, h') ->
  exists base alternates baseTheme baseThemeSelector i styleVariant t block,
    styleVariants this = base :: alternates /\
    h !! theme base = Some baseTheme /\
    callThemeCssSelector (themeCssSelector this) (theme base) (styleVariants this) h
      = (Normal baseThemeSelector, h) /\
    alternates !! i = Some styleVariant /\
    h !! theme styleVariant = Some t /\
    type t = oppositeType (type baseTheme) /\
    (forall j earlier, j < i -> alternates !! j = Some earlier ->
       exists t', h !! theme earlier = Some t' /\ type t' = type baseTheme) /\
    scopeAndMinifyNestedCss
      (darkModeMediaQueryCss (oppositeType (type baseTheme)) (themeCssRoot this)
         (notBaseThemeSelectorOf baseThemeSelector)
         {| av_theme := theme styleVariant;
            cssVars := renderDeclarations
                         (diffVars (cssVarDeclarations base) (cssVarDeclarations styleVariant));
            coreStyles := getCoreThemeStyles (Datatypes.S i) |})
      = Normal block /\
    fragments !! 1 = Some block.
Proof.
  intros Hdark Hselector Hrun.
  apply themeStyles_Normal in Hrun
    as (base & baseThemeSelector & h1 & baseBlock & mediaQuery & h2 & perTheme &
        Hbase & Hcall & HbaseBlock & Hmedia & _ & ->).
  destruct (styleVariants this) as [|base' alternates] eqn:Hvariants; [done|].
  injection Hbase as ->. simpl tail in Hmedia.
  pose proof (readOnly_callThemeCssSelector _ (theme base) (base :: alternates) Hselector h)
    as Hsame.
  rewrite Hcall in Hsame. simpl in Hsame. subst h1.
  unfold darkModeMediaQueryStyles in Hmedia. rewrite Hdark, Hvariants in Hmedia.
  apply bind_Normal in Hmedia as (baseTheme & h1 & Hread & Hmedia).
  unfold readTheme in Hread. destruct (h !! theme base) as [baseTheme'|] eqn:HbaseTheme; [|done].
  injection Hread as <- <-. rewrite altType_opposite in Hmedia.
  apply bind_Normal in Hmedia as (found & h1 & Hfind & Hmedia).
  destruct found as [firstAltVariant|].
  2:{ apply bind_Normal in Hmedia as (? & ? & _ & ?). done. }
  apply findM_themeType_first in Hfind as (-> & i & Hi & Htype & Hbefore).
  apply bind_Normal in Hmedia as (block & h1 & Hblock & Hret).
  unfold liftCompletion in Hblock. injection Hblock as Hblock _. injection Hret as <- _.
  rewrite alternateVariantsFrom_lookup in Hi.
  destruct (alternates !! i) as [styleVariant|] eqn:Hlookup; [|done].
  injection Hi as <-. unfold themeHasType in Htype. simpl in Htype.
  destruct (h !! theme styleVariant) as [t|] eqn:Ht; [|done].
  apply ThemeType_eqb_eq in Htype.
  exists base, alternates, baseTheme', baseThemeSelector, i, styleVariant, t, block.
  split_and!; try done.
  intros j earlier Hj Hearlier.
  destruct (Hbefore j
              {| av_theme := theme earlier;
                 cssVars := renderDeclarations
                              (diffVars (cssVarDeclarations base) (cssVarDeclarations earlier));
                 coreStyles := getCoreThemeStyles (1 + j) |} Hj) as (t' & Ht' & Hne).
  { by rewrite alternateVariantsFrom_lookup, Hearlier. }
  exists t'. split; [done|]. simpl in Ht'. by destruct (type t'), (type baseTheme').
Qed.

(** *** With [themeCssSelector: false] *)

(** The text handed to post-processing for the base theme's block when the
    base theme has no selector (lines 400-407). *)
Lemma baseThemeStyles_without_selector (this : ExpressiveCodeEngine) baseVars :
  let declarations := renderDeclarations baseVars in
  baseThemeStyles this baseVars IsFalse =
  scopeAndMinifyNestedCss
    ("
				" +:+ themeCssRoot this +:+ " {
					" +:+
        declarations +:+ "
				}
				& {
					" +:+
        getCoreThemeStyles 0 +:+ "
				}
			").
Proof.
  intros declarations. unfold baseThemeStyles, baseThemeBlockInsideAlternateThemeRootOf.
  simpl. f_equal. unfold baseThemeCss, line, declarations.
  destruct (themeCssRoot this) as [|c root]; simpl; rewrite ?append_assoc; reflexivity.
Qed.

(** The text handed to post-processing for the media query when the base
    theme has no selector (lines 444-453). *)
Lemma darkModeMediaQueryCss_without_selector altType themeCssRoot firstAltVariant :
  darkModeMediaQueryCss altType themeCssRoot EmptyString firstAltVariant =
  "
				@media (prefers-color-scheme: " +:+
        ThemeType_toString altType +:+ ") {
					" +:+
        themeCssRoot +:+ " {
						" +:+
        cssVars firstAltVariant +:+ "
					}
					" +:+
        themeCssRoot +:+ " & {
						" +:+
        coreStyles firstAltVariant +:+ "
					}
				}
			".
Proof.
  unfold darkModeMediaQueryCss, line. rewrite ?append_assoc. reflexivity.
Qed.

(** C7. With [themeCssSelector] set to [false], [getThemeStyles] leaves the
    theme objects alone, and the stylesheet it returns is made of the base
    theme's block and, when [useDarkModeMediaQuery] is on, the
    [prefers-color-scheme] block, and of nothing else: no per-theme selector
    block is part of it. The base block is what post-processing makes of
    the text of lines 400-407, with [themeCssRoot] and [&] as its selectors,
    the base variant's declarations and the core styles of index 0. The
    media query is what post-processing makes of the text of lines 444-453
    for the first style variant, in order, whose theme type differs from the
    base theme's: it asks for that type, and carries that variant's diff
    declarations and the core styles of its index. *)
Theorem no_theme_selector_blocks_when_disabled (this : ExpressiveCodeEngine) h out h' :
  themeCssSelector this = SelectorFalse ->
  getThemeStyles this h = (Normal out, h') ->
  exists base alternates baseBlock,
    styleVariants this = base :: alternates /\
    h' = h /\
    scopeAndMinifyNestedCss
      ("
				" +:+ themeCssRoot this +:+ " {
					" +:+
        String.concat ";"
           (map (fun '(varName, varValue) => varName +:+ ":" +:+ varValue)
              (cssVarDeclarations base)) +:+ "
				}
				& {
					" +:+
        getCoreThemeStyles 0 +:+ "
				}
			")
      = Normal baseBlock /\
    if useDarkModeMediaQuery this then
      exists baseTheme i styleVariant t mediaQueryBlock,
        h !! theme base = Some baseTheme /\
        alternates !! i = Some styleVariant /\
        h !! theme styleVariant = Some t /\
        type t <> type baseTheme /\
        (forall j earlier, j < i -> alternates !! j = Some earlier ->
           exists t', h !! theme earlier = Some t' /\ type t' = type baseTheme) /\
        scopeAndMinifyNestedCss
          ("
				@media (prefers-color-scheme: " +:+
        match type baseTheme with dark => "light" | light => "dark" end +:+ ") {
					" +:+
        themeCssRoot this +:+ " {
						" +:+
        String.concat ";"
           (map (fun '(varName, varValue) => varName +:+ ":" +:+ varValue)
              (diffVars (cssVarDeclarations base) (cssVarDeclarations styleVariant))) +:+ "
					}
					" +:+
        themeCssRoot this +:+ " & {
						" +:+
        getCoreThemeStyles (Datatypes.S i) +:+ "
					}
				}
			")
          = Normal mediaQueryBlock /\
        out = wrapInCascadeLayer (baseBlock +:+ mediaQueryBlock) (cascadeLayer this)
    else out = wrapInCascadeLayer baseBlock (cascadeLayer this).
Proof.
  intros Hdisabled Hrun. unfold getThemeStyles in Hrun.
  apply bind_Normal in Hrun as (fragments & h1 & Hfragments & Hret).
  injection Hret as <- <-.
  apply themeStyles_Normal in Hfragments
    as (base & baseThemeSelector & h2 & baseBlock & mediaQuery & h3 & perTheme &
        Hbase & Hselector & HbaseBlock & Hmedia & HperTheme & ->).
  destruct (styleVariants this) as [|base' alternates] eqn:Hvariants; [done|].
  injection Hbase as ->. simpl tail in Hmedia.
  rewrite Hdisabled in Hselector, HperTheme. simpl in Hselector.
  injection Hselector as <- <-. destruct HperTheme as [-> ->].
  rewrite baseThemeStyles_without_selector in HbaseBlock.
  unfold darkModeMediaQueryStyles in Hmedia. rewrite Hvariants in Hmedia.
  exists base, alternates, baseBlock.
  destruct (useDarkModeMediaQuery this).
  - apply bind_Normal in Hmedia as (baseTheme & h2 & Hread & Hmedia).
    unfold readTheme in Hread.
    destruct (h !! theme base) as [baseTheme'|] eqn:HbaseTheme; [|done].
    injection Hread as <- <-.
    apply bind_Normal in Hmedia as (found & h2 & Hfind & Hmedia).
    destruct found as [firstAltVariant|].
    2:{ apply bind_Normal in Hmedia as (? & ? & _ & ?). done. }
    apply findM_themeType_first in Hfind as (-> & i & Hi & Htype & Hbefore).
    apply bind_Normal in Hmedia as (block & h2 & Hblock & Hret).
    unfold liftCompletion in Hblock. injection Hblock as Hblock <-. injection Hret as <- <-.
    rewrite alternateVariantsFrom_lookup in Hi.
    destruct (alternates !! i) as [styleVariant|] eqn:Hlookup; [|done].
    injection Hi as <-. unfold themeHasType in Htype. simpl in Htype.
    destruct (h !! theme styleVariant) as [t|] eqn:Ht; [|done].
    apply ThemeType_eqb_eq in Htype.
    rewrite darkModeMediaQueryCss_without_selector in Hblock. simpl in Hblock.
    split_and!; [done..|].
    exists baseTheme', i, styleVariant, t, block. split_and!; try done.
    + rewrite Htype. by destruct (type baseTheme').
    + intros j earlier Hj Hearlier.
      destruct (Hbefore j
                  {| av_theme := theme earlier;
                     cssVars := renderDeclarations
                                  (diffVars (cssVarDeclarations base)
                                     (cssVarDeclarations earlier));
                     coreStyles := getCoreThemeStyles (1 + j) |} Hj) as (t' & Ht' & Hne).
      { by rewrite alternateVariantsFrom_lookup, Hearlier. }
      exists t'. split; [done|]. simpl in Ht'. by destruct (type t'), (type baseTheme').
    + by destruct (type baseTheme').
  - injection Hmedia as <- <-. by split_and!.
Qed.

(** X6. An engine with a single style variant and [useDarkModeMediaQuery] on
    cannot produce its theme styles: when nothing else fails,
    [getThemeStyles] throws the error of line 437. *)
Theorem single_theme_media_query_throws (this : ExpressiveCodeEngine) h base :
  useDarkModeMediaQuery this = true ->
  styleVariants this = [base] ->
  is_Some (h !! theme base) ->
  (forall r, r ∈ themes this -> is_Some (h !! r)) ->
  selectorReturns this h ->
  (forall css, exists out, scopeAndMinifyNestedCss css = Normal out) ->
  exists h',
    getThemeStyles this h
    = (Throw (Error (darkModeErrorMessage (themeLabels h (themes this)))), h').
Proof.
  intros Hdark Hvariants Hbase Hthemes Hselector Hcss.
  destruct (dark_mode_media_query_error_base this h) as [Hiff Hmessage]; try done.
  - by rewrite Hvariants.
  - rewrite Hvariants. by intros styleVariant ->%list_elem_of_singleton.
  - destruct (proj2 Hiff) as (e & h' & Hthrow).
    + intros (base' & alternates & i & ? & ? & ? & Hsome & Hi & _).
      rewrite Hvariants in Hsome. injection Hsome as <- <-. done.
    + exists h'. destruct (Hmessage e h' Hthrow) as [-> _]. exact Hthrow.
Qed.

Lemma forPush_themeSelectorStyles (this : ExpressiveCodeEngine) notBaseThemeSelector
    (g : ThemeRef -> StringOrFalse) (minify : string -> string) l h :
  (forall css, scopeAndMinifyNestedCss css = Normal (minify css)) ->
  (forall v, v ∈ l ->
     callThemeCssSelector (themeCssSelector this) (av_theme v) (styleVariants this) h
     = (Normal (g (av_theme v)), h)) ->
  forPush (themeSelectorStyles this notBaseThemeSelector) l h =
  (Normal
     (map (fun v => minify (themeSelectorCss (themeCssRoot this) (interpolate (g (av_theme v)))
                              notBaseThemeSelector v))
        (List.filter (fun v => isTruthy (g (av_theme v))) l)),
   h).
Proof.
  intros Hminify. induction l as [|v rest IH]; intros Hcalls; simpl; [done|].
  assert (themeSelectorStyles this notBaseThemeSelector v h =
          (Normal (if isTruthy (g (av_theme v))
                   then [minify (themeSelectorCss (themeCssRoot this)
                                   (interpolate (g (av_theme v))) notBaseThemeSelector v)]
                   else []), h)) as Hbody.
  { unfold themeSelectorStyles. unfold bind at 1.
    rewrite Hcalls by (apply elem_of_cons; by left).
    destruct (isTruthy (g (av_theme v))); [|done].
    unfold bind, liftCompletion. by rewrite Hminify. }
  rewrite (bind_eq_Normal _ _ _ _ _ Hbody).
  rewrite (bind_eq_Normal _ _ _ _ _ (IH (fun v' Hv' => Hcalls v' (proj2 (elem_of_cons _ _ _) (or_intror Hv'))))).
  by destruct (isTruthy (g (av_theme v))).
Qed.

(** X7. With the media query off, a [themeCssSelector] function that answers
    [g theme] for each theme and CSS post-processing [minify], the parts of
    the stylesheet are the base block followed by one block per alternate
    variant whose selector is a non-empty string, in theme order; variants
    whose selector is [false] or empty contribute nothing. *)
Theorem themeStyles_without_media_query (this : ExpressiveCodeEngine) h base alternates f
    (g : ThemeRef -> StringOrFalse) (minify : string -> string) :
  useDarkModeMediaQuery this = false ->
  styleVariants this = base :: alternates ->
  themeCssSelector this = SelectorFn f ->
  (forall styleVariant, styleVariant ∈ styleVariants this ->
     f (theme styleVariant) (styleVariants this) h = (Normal (g (theme styleVariant)), h)) ->
  (forall css, scopeAndMinifyNestedCss css = Normal (minify css)) ->
  let notBaseThemeSelector := notBaseThemeSelectorOf (g (theme base)) in
  exists baseBlock,
    baseThemeStyles this (cssVarDeclarations base) (g (theme base)) = Normal baseBlock /\
    themeStyles this h =
    (Normal
       (baseBlock ::
        map (fun v => minify (themeSelectorCss (themeCssRoot this)
                                (interpolate (g (av_theme v))) notBaseThemeSelector v))
          (List.filter (fun v => isTruthy (g (av_theme v)))
             (alternateVariantsFrom (cssVarDeclarations base) 1 alternates))),
     h).
Proof.
  intros Hdark Hvariants Hf Hcalls Hminify notBaseThemeSelector.
  eexists. split; [unfold baseThemeStyles; apply Hminify|].
  unfold themeStyles. rewrite Hvariants, Hf. simpl tail.
  unfold bind at 1. unfold ret at 1. unfold bind at 1. simpl callThemeCssSelector.
  rewrite <- Hvariants, Hcalls by (rewrite Hvariants; apply elem_of_cons; by left).
  unfold bind at 1. unfold liftCompletion at 1. unfold baseThemeStyles. rewrite Hminify.
  unfold bind at 1. unfold darkModeMediaQueryStyles. rewrite Hdark. unfold ret at 1.
  unfold bind at 1.
  rewrite (forPush_themeSelectorStyles this notBaseThemeSelector g minify); [done..|].
  intros v (i & styleVariant & Hi & ->)%alternateVariantsFrom_elem.
  rewrite Hf. simpl. apply Hcalls. rewrite Hvariants.
  apply elem_of_cons. right. apply list_elem_of_lookup. by exists i.
Qed.

Lemma forPush_pluginBaseStyles resolverContext plugins h fromPlugins h' :
  forPush (pluginBaseStyles resolverContext) plugins h = (Normal fromPlugins, h') ->
  Forall (fun entry => styles entry <> EmptyString) fromPlugins /\
  sublist (pluginName <$> fromPlugins) (Plugin.name <$> plugins).
Proof.
  revert h fromPlugins h'.
  induction plugins as [|plugin rest IH]; intros h fromPlugins h'; simpl.
  - by intros [= <- _].
  - intros (out & h1 & Hout & Hrest)%bind_Normal.
    apply bind_Normal in Hrest as (outs & h2 & Houts & Hret). injection Hret as <- _.
    apply IH in Houts as [Hnonempty Hsub].
    assert (out = [] \/
            exists s, s <> EmptyString /\
                      out = [ {| pluginName := Plugin.name plugin; styles := s |} ])
      as [->|(s & Hs & ->)].
    { unfold pluginBaseStyles in Hout.
      destruct (Plugin.baseStyles plugin) as [[s|f]|].
      - destruct (truthy s) eqn:Hs; injection Hout as <- _; [|by left].
        right. exists s. split; [by apply truthy_true | done].
      - apply bind_Normal in Hout as (s & h3 & _ & Hout).
        destruct (truthy s) eqn:Hs; injection Hout as <- _; [|by left].
        right. exists s. split; [by apply truthy_true | done].
      - injection Hout as <- _. by left. }
    + simpl. split; [done | by apply sublist_cons].
    + simpl. split; [by apply Forall_cons | by apply sublist_skip].
Qed.

(** X8. The styles that [getBaseStyles] hands to [processPluginStyles] start
    with the core styles under the name [core]; the entries after it have
    non-empty styles and carry the names of plugins of the engine, in plugin
    order, at most one per plugin. *)
Theorem collectPluginStyles_shape (this : ExpressiveCodeEngine) h pluginStyles h' :
  collectPluginStyles this h = (Normal pluginStyles, h') ->
  exists fromPlugins,
    pluginStyles =
      {| pluginName := "core";
         styles := getCoreBaseStyles (getResolverContext this) (useStyleReset this)
                     (useThemedScrollbars this) (useThemedSelectionColors this) |}
      :: fromPlugins /\
    Forall (fun entry => styles entry <> EmptyString) fromPlugins /\
    sublist (pluginName <$> fromPlugins) (Plugin.name <$> plugins this) /\
    length pluginStyles <= Datatypes.S (length (plugins this)).
Proof.
  unfold collectPluginStyles.
  intros (fromPlugins & h1 & Hloop & Hret)%bind_Normal. injection Hret as <- _.
  apply forPush_pluginBaseStyles in Hloop as [Hnonempty Hsub].
  exists fromPlugins. split_and!; try done.
  apply sublist_length in Hsub. rewrite !length_fmap in Hsub. simpl. lia.
Qed.

Lemma forPush_static_pluginBaseStyles resolverContext plugins h :
  staticBaseStylesOnly plugins ->
  forPush (pluginBaseStyles resolverContext) plugins h
  = (Normal (omap staticPluginStyles plugins), h).
Proof.
  induction plugins as [|plugin rest IH]; intros Hstatic; simpl; [done|].
  assert (pluginBaseStyles resolverContext plugin h =
          (Normal (option_list (staticPluginStyles plugin)), h)) as Hbody.
  { unfold pluginBaseStyles, staticPluginStyles.
    destruct (Plugin.baseStyles plugin) as [[s|f]|] eqn:Hfield; [|exfalso|done].
    - by destruct (truthy s).
    - apply (Hstatic plugin f); [apply elem_of_cons; by left | done]. }
  rewrite (bind_eq_Normal _ _ _ _ _ Hbody).
  rewrite (bind_eq_Normal _ _ _ _ _
             (IH (fun p f Hp => Hstatic p f (proj2 (elem_of_cons _ _ _) (or_intror Hp))))).
  unfold ret. by destruct (staticPluginStyles plugin).
Qed.

(** X16. When no plugin computes its [baseStyles], [getBaseStyles] leaves
    the theme objects alone and processes the core styles followed by the
    non-empty static styles of the plugins, in plugin order; what
    [processPluginStyles] makes of them is joined and wrapped. *)
Theorem getBaseStyles_static (this : ExpressiveCodeEngine) h processedStyles :
  staticBaseStylesOnly (plugins this) ->
  processPluginStyles
    ({| pluginName := "core";
        styles := getCoreBaseStyles (getResolverContext this) (useStyleReset this)
                    (useThemedScrollbars this) (useThemedSelectionColors this) |}
     :: omap staticPluginStyles (plugins this)) = Normal processedStyles ->
  getBaseStyles this h =
  (Normal (wrapInCascadeLayer (join EmptyString processedStyles) (cascadeLayer this)), h).
Proof.
  intros Hstatic Hprocessed. unfold getBaseStyles, collectPluginStyles.
  unfold bind at 1. unfold bind at 1.
  rewrite forPush_static_pluginBaseStyles by done. unfold ret at 1.
  unfold bind, liftCompletion. by rewrite Hprocessed.
Qed.

End MoreThemeStyles.

(** ** More on the constructor *)

Section MoreConstruction.
Context `{Externals}.

Lemma transferred_options (config : ExpressiveCodeEngineConfig) :
  Config.themeCssRoot (transferred config) = Config.themeCssRoot config /\
  Config.themeCssSelector (transferred config) = Config.themeCssSelector config /\
  Config.cascadeLayer (transferred config) = Config.cascadeLayer config /\
  Config.defaultLocale (transferred config) = Config.defaultLocale config.
Proof.
  unfold transferred. by destruct (Config.theme config), (Config.themes config).
Qed.

(** A successful construction, with everything it leaves behind. *)
Lemma constructor_Normal_steps w e w' :
  constructor w = (Normal e, w') ->
  let config := transferred (configObject w) in
  let themes0 := (initialThemesOf config (themeObjects w)).1 in
  exists w1 w2,
    match Config.useDarkModeMediaQuery config with
    | Some b => ret b
    | None => onThemes (defaultUseDarkModeMediaQuery themes0)
    end (afterInitialThemes w) = (Normal (useDarkModeMediaQuery e), w1) /\
    mapM_index
      (customizeAndAdjustTheme (Config.customizeTheme config)
         (minSyntaxHighlightingColorContrast e) (plugins e) (styleOverrides e))
      0 themes0 w1 = (Normal (themes e), w2) /\
    themeObjects w' = themeObjects w2 /\
    calls w' = calls w2 ++ [ResolveStyleVariantsCall (themes e)] /\
    resolveStyleVariants (themeObjects w2) (themes e) (styleOverrides e) (plugins e)
      getCssVarName = Normal (styleVariants e) /\
    themeCssRoot e = nullish (Config.themeCssRoot config) ":root" /\
    themeCssSelector e = nullish (Config.themeCssSelector config) defaultThemeCssSelector /\
    cascadeLayer e = nullish (Config.cascadeLayer config) EmptyString /\
    defaultLocale e =
      match Config.defaultLocale config with
      | Some locale => if truthy locale then locale else "en-US"
      | None => "en-US"
      end.
Proof.
  intros Hrun config themes0. unfold constructor in Hrun.
  unfold bind at 1 in Hrun. rewrite transferDeprecatedTheme_run in Hrun.
  unfold bind at 1 in Hrun. rewrite initialThemes_run in Hrun.
  simpl configObject in Hrun. simpl themeObjects in Hrun.
  unfold bind at 1 in Hrun.
  unfold readConfig at 1, bind at 1, getState at 1, ret at 1 in Hrun.
  simpl configObject in Hrun.
  change (setThemeObjects _ _) with (afterInitialThemes w) in Hrun.
  fold config in Hrun. fold themes0 in Hrun.
  apply bind_Normal in Hrun as (useDark & w1 & HuseDark & Hrun).
  apply bind_Normal in Hrun as (themes & w2 & Hthemes & Hrun).
  apply bind_Normal in Hrun as ([] & w3 & Hrecord & Hrun).
  apply bind_Normal in Hrun as (w4 & w5 & Hget & Hrun).
  apply bind_Normal in Hrun as (variants & w6 & Hvariants & Hrun).
  injection Hrecord as <-. injection Hget as <- <-.
  unfold liftCompletion in Hvariants. injection Hvariants as Hvariants <-.
  injection Hrun as <- <-. simpl. by exists w1, w2.
Qed.

Lemma useDarkModeMediaQuery_step_state (option : option bool) themes0 w0 outcome w1 :
  match option with
  | Some b => ret b
  | None => onThemes (defaultUseDarkModeMediaQuery themes0)
  end w0 = (outcome, w1) ->
  themeObjects w1 = themeObjects w0 /\ calls w1 = calls w0.
Proof.
  destruct option as [b|].
  - by intros [= _ <-].
  - unfold onThemes, zoom.
    pose proof (readOnly_defaultUseDarkModeMediaQuery themes0 (themeObjects w0)) as Hsame.
    destruct (defaultUseDarkModeMediaQuery themes0 (themeObjects w0)) as [out h1].
    simpl in Hsame. subst h1. by intros [= _ <-].
Qed.

(** *** One round of the [map] callback *)

Lemma customizeAndAdjustTheme_objects ratio plugins overrides theme index w theme' w' :
  customizeAndAdjustTheme None ratio plugins overrides theme index w = (Normal theme', w') ->
  theme' = theme /\
  if PrimFloat.ltb 0 ratio
  then exists t background,
         themeObjects w !! theme = Some t /\
         themeObjects w' =
           <[theme := ensureMinSyntaxHighlightingColorContrast ratio background t]>
             (themeObjects w)
  else themeObjects w' = themeObjects w.
Proof.
  unfold customizeAndAdjustTheme.
  intros (customized & w1 & Hcustomize & Hrest)%bind_Normal. injection Hcustomize as <- <-.
  apply bind_Normal in Hrest as ([] & w2 & Hpass & Hret). injection Hret as <- <-.
  split; [done|]. destruct (PrimFloat.ltb 0 ratio).
  - apply bind_Normal in Hpass as ([] & w3 & Hrecord & Hpass). injection Hrecord as <-.
    apply bind_Normal in Hpass as (w4 & w5 & Hget & Hpass). injection Hget as <- <-.
    apply bind_Normal in Hpass as (settings & w6 & Hsettings & Hpass).
    unfold liftCompletion in Hsettings. injection Hsettings as Hsettings <-.
    apply bind_Normal in Hpass as ([] & w7 & Hrecord & Hpass). injection Hrecord as <-.
    unfold onThemes, zoom in Hpass. simpl themeObjects in Hpass.
    unfold updateTheme, bind, readTheme, modifyState in Hpass.
    destruct (themeObjects w !! theme) as [t|] eqn:Hlookup; [|done].
    injection Hpass as <-. simpl. by eexists _, _.
  - by injection Hpass as <-.
Qed.

(** *** The whole [map] *)

Lemma mapM_index_length {S A B} (f : A -> nat -> St S B) start l s l' s' :
  mapM_index f start l s = (Normal l', s') -> length l' = length l.
Proof.
  revert start s l'. induction l as [|x rest IH]; intros start s l'; simpl.
  - by intros [= <- _].
  - intros (y & s1 & _ & Hrest)%bind_Normal.
    apply bind_Normal in Hrest as (ys & s2 & Hrest & Hret). injection Hret as <- <-.
    simpl. f_equal. by eapply IH.
Qed.

Lemma mapM_index_objects ratio plugins overrides start themes0 w themes w' :
  mapM_index (customizeAndAdjustTheme None ratio plugins overrides) start themes0 w
    = (Normal themes, w') ->
  (forall r, r ∉ themes0 -> themeObjects w' !! r = themeObjects w !! r) /\
  (PrimFloat.ltb 0 ratio = true -> NoDup themes0 ->
   forall r, r ∈ themes0 ->
   exists t background,
     themeObjects w !! r = Some t /\
     themeObjects w' !! r
       = Some (ensureMinSyntaxHighlightingColorContrast ratio background t)).
Proof.
  revert start w themes. induction themes0 as [|theme rest IH]; intros start w themes; simpl.
  - intros [= _ <-]. split; [done|]. by intros _ _ r []%elem_of_nil.
  - intros (theme' & w1 & Hfirst & Hrest)%bind_Normal.
    apply bind_Normal in Hrest as (themes' & w2 & Hrest & Hret). injection Hret as _ <-.
    apply customizeAndAdjustTheme_objects in Hfirst as [-> Hfirst].
    apply IH in Hrest as [Hframe Hadjusted]. split.
    + intros r [Hne Hr]%not_elem_of_cons. rewrite (Hframe r Hr).
      destruct (PrimFloat.ltb 0 ratio); [|by rewrite Hfirst].
      destruct Hfirst as (t & background & _ & ->). by rewrite lookup_insert_ne.
    + intros Hpositive [Hfresh Hnodup]%NoDup_cons r Hr. rewrite Hpositive in Hfirst.
      destruct Hfirst as (t & background & Hlookup & Hfirst).
      apply elem_of_cons in Hr as [->|Hr].
      * exists t, background. split; [done|].
        rewrite (Hframe theme Hfresh), Hfirst. apply lookup_insert_eq.
      * destruct (Hadjusted Hpositive Hnodup r Hr) as (t' & background' & Hlookup' & Hfinal).
        exists t', background'. split; [|done].
        rewrite Hfirst, lookup_insert_ne in Hlookup'; [done|]. by intros ->.
Qed.

(** X9. The constructed engine has as many themes as the list resolved from
    the configuration, whatever [customizeTheme] does: two when neither
    [themes] nor the deprecated [theme] is given. *)
Theorem themes_count_preserved w e w' resolvedThemes w0 :
  (run transferDeprecatedTheme; initialThemes) w = (Normal resolvedThemes, w0) ->
  constructor w = (Normal e, w') ->
  length (themes e) = length resolvedThemes /\
  (Config.themes (configObject w) = None -> Config.theme (configObject w) = None ->
   length (themes e) = 2).
Proof.
  rewrite initial_steps_run. intros [= <- <-] Hrun.
  apply constructor_Normal_steps in Hrun as (w1 & w2 & _ & Hmap & _).
  apply mapM_index_length in Hmap. split; [done|].
  intros Hthemes Htheme. rewrite Hmap. unfold transferred, initialThemesOf.
  by rewrite Htheme, Hthemes.
Qed.

(** One round of the contrast pass, with the background color it uses. *)
Lemma customizeAndAdjustTheme_background ratio plugins overrides theme index w theme' w' :
  customizeAndAdjustTheme None ratio plugins overrides theme index w = (Normal theme', w') ->
  PrimFloat.ltb 0 ratio = true ->
  exists t themeStyleSettings,
    themeObjects w !! theme = Some t /\
    resolveStyleSettings (themeObjects w) theme index plugins overrides
      = Normal themeStyleSettings /\
    themeObjects w' =
      <[theme := ensureMinSyntaxHighlightingColorContrast ratio
                   (getFirstStaticColor (settingsGet themeStyleSettings "codeBackground")) t]>
        (themeObjects w).
Proof.
  unfold customizeAndAdjustTheme.
  intros (customized & w1 & Hcustomize & Hrest)%bind_Normal Hpositive.
  injection Hcustomize as <- <-.
  apply bind_Normal in Hrest as ([] & w2 & Hpass & Hret). injection Hret as <- <-.
  rewrite Hpositive in Hpass.
  apply bind_Normal in Hpass as ([] & w3 & Hrecord & Hpass). injection Hrecord as <-.
  apply bind_Normal in Hpass as (w4 & w5 & Hget & Hpass). injection Hget as <- <-.
  apply bind_Normal in Hpass as (settings & w6 & Hsettings & Hpass).
  unfold liftCompletion in Hsettings. injection Hsettings as Hsettings <-.
  apply bind_Normal in Hpass as ([] & w7 & Hrecord & Hpass). injection Hrecord as <-.
  unfold onThemes, zoom in Hpass. simpl themeObjects in Hpass.
  unfold updateTheme, bind, readTheme, modifyState in Hpass.
  simpl themeObjects in Hsettings.
  destruct (themeObjects w !! theme) as [t|] eqn:Hlookup; [|done].
  injection Hpass as <-. simpl. by exists t, settings.
Qed.

(** The whole contrast pass over pairwise different themes: theme by theme,
    with the theme objects as the round found them. *)
Lemma mapM_index_backgrounds ratio plugins overrides start themes0 w themes w' :
  mapM_index (customizeAndAdjustTheme None ratio plugins overrides) start themes0 w
    = (Normal themes, w') ->
  PrimFloat.ltb 0 ratio = true ->
  NoDup themes0 ->
  forall i r, themes0 !! i = Some r ->
  exists h t themeStyleSettings,
    (forall r', r' ∈ take i themes0 -> h !! r' = themeObjects w' !! r') /\
    (forall r', r' ∉ take i themes0 -> h !! r' = themeObjects w !! r') /\
    themeObjects w !! r = Some t /\
    resolveStyleSettings h r (start + i) plugins overrides = Normal themeStyleSettings /\
    themeObjects w' !! r
      = Some (ensureMinSyntaxHighlightingColorContrast ratio
                (getFirstStaticColor (settingsGet themeStyleSettings "codeBackground")) t).
Proof.
  revert start w themes. induction themes0 as [|theme rest IH]; intros start w themes; simpl.
  - by intros _ _ _ i r.
  - intros (theme' & w1 & Hfirst & Hrest)%bind_Normal Hpositive [Hfresh Hnodup]%NoDup_cons.
    apply bind_Normal in Hrest as (themes' & w2 & Hrest & Hret). injection Hret as _ <-.
    pose proof (mapM_index_objects _ _ _ _ _ _ _ _ Hrest) as [Hframe _].
    apply customizeAndAdjustTheme_background in Hfirst as (t & settings & Hlookup & Hsettings & Hw1);
      [|done].
    intros [|i] r Hr; simpl in Hr.
    + injection Hr as <-. exists (themeObjects w), t, settings.
      rewrite Nat.add_0_r. split_and!; try done.
      * by intros r' []%elem_of_nil.
      * rewrite (Hframe theme Hfresh), Hw1. apply lookup_insert_eq.
    + destruct (IH _ _ _ Hrest Hpositive Hnodup i r Hr)
        as (h & t' & settings' & Hdone & Htodo & Hlookup' & Hsettings' & Hfinal).
      assert (r <> theme) as Hne.
      { intros ->. apply Hfresh. by eapply list_elem_of_lookup_2. }
      exists h, t', settings'. rewrite Nat.add_succ_r. split_and!; try done.
      * intros r' [->|Hr']%elem_of_cons; [|by apply Hdone].
        assert (theme ∉ take i rest) as Hearly.
        { intros Hin. apply Hfresh. by apply (subseteq_take i rest). }
        by rewrite (Htodo theme Hearly), (Hframe theme Hfresh).
      * intros r' [Hne' Hr']%not_elem_of_cons.
        rewrite (Htodo r' Hr'), Hw1. by apply lookup_insert_ne.
      * rewrite Hw1, lookup_insert_ne in Hlookup'; done.
Qed.

(** X10. What the contrast pass works with. Without a [customizeTheme], with
    a positive minimum contrast and the resolved themes pairwise different
    objects, the theme at position [i] ends as its contrast adjustment with
    the engine's ratio and, as background, the first static color of the
    [codeBackground] among the style settings that [resolveStyleSettings]
    gives for this theme, with [i] as [styleVariantIndex] and the engine's
    plugins and style overrides. These settings are resolved when the
    themes before position [i] have their final form and this theme and
    all others are still as line 237 left them. *)
Theorem contrast_background_of_each_theme w e w' resolvedThemes w0 :
  Config.customizeTheme (configObject w) = None ->
  (run transferDeprecatedTheme; initialThemes) w = (Normal resolvedThemes, w0) ->
  NoDup resolvedThemes ->
  constructor w = (Normal e, w') ->
  PrimFloat.ltb 0 (minSyntaxHighlightingColorContrast e) = true ->
  forall i r, resolvedThemes !! i = Some r ->
  exists h t themeStyleSettings,
    (forall r', r' ∈ take i resolvedThemes -> h !! r' = themeObjects w' !! r') /\
    (forall r', r' ∉ take i resolvedThemes -> h !! r' = themeObjects w0 !! r') /\
    themeObjects w0 !! r = Some t /\
    resolveStyleSettings h r i (plugins e) (styleOverrides e) = Normal themeStyleSettings /\
    themeObjects w' !! r
      = Some (ensureMinSyntaxHighlightingColorContrast
                (minSyntaxHighlightingColorContrast e)
                (getFirstStaticColor (settingsGet themeStyleSettings "codeBackground")) t).
Proof.
  intros Hnone. rewrite initial_steps_run. intros [= <- <-] Hnodup Hrun Hpositive i r Hr.
  destruct (transferred_fields (configObject w)) as (_ & _ & Hcustomize).
  apply constructor_Normal_steps in Hrun as (w1 & w2 & HuseDark & Hmap & Hobjects & _).
  apply useDarkModeMediaQuery_step_state in HuseDark as [Hobjects1 _].
  rewrite Hcustomize, Hnone in Hmap.
  destruct (mapM_index_backgrounds _ _ _ _ _ _ _ _ Hmap Hpositive Hnodup i r Hr)
    as (h & t & settings & Hdone & Htodo & Hlookup & Hsettings & Hfinal).
  exists h, t, settings. rewrite Hobjects, <- Hobjects1. by split_and!.
Qed.

(** X11. The style variants of a constructed engine are what
    [resolveStyleVariants] returns for the engine's own themes, style
    overrides and plugins, read in the state in which construction leaves
    the theme objects: after [customizeTheme] and the contrast pass. *)
Theorem styleVariants_of_final_themes w e w' :
  constructor w = (Normal e, w') ->
  resolveStyleVariants (themeObjects w') (themes e) (styleOverrides e) (plugins e)
    getCssVarName = Normal (styleVariants e).
Proof.
  intros Hrun.
  apply constructor_Normal_steps in Hrun as (w1 & w2 & _ & _ & Hobjects & _ & Hvariants & _).
  by rewrite Hobjects.
Qed.

(** X12. Without a [customizeTheme], a successful construction leaves every
    theme object that is not among the engine's themes as it was after line
    237, and the engine's themes are the resolved ones. *)
Theorem other_theme_objects_untouched w e w' resolvedThemes w0 :
  Config.customizeTheme (configObject w) = None ->
  (run transferDeprecatedTheme; initialThemes) w = (Normal resolvedThemes, w0) ->
  constructor w = (Normal e, w') ->
  themes e = resolvedThemes /\
  forall r, r ∉ resolvedThemes -> themeObjects w' !! r = themeObjects w0 !! r.
Proof.
  intros Hnone. rewrite initial_steps_run. intros [= <- <-] Hrun.
  destruct (transferred_fields (configObject w)) as (_ & _ & Hcustomize).
  apply constructor_Normal_steps in Hrun as (w1 & w2 & HuseDark & Hmap & Hobjects & _).
  apply useDarkModeMediaQuery_step_state in HuseDark as [Hobjects1 _].
  rewrite Hcustomize, Hnone in Hmap. split.
  - by apply mapM_index_without_customizeTheme in Hmap.
  - intros r Hr. apply mapM_index_objects in Hmap as [Hframe _].
    by rewrite Hobjects, (Hframe r Hr), Hobjects1.
Qed.

(** X13. Without a [customizeTheme], with a positive minimum contrast and
    the resolved themes pairwise different objects, a successful
    construction leaves each of them adjusted exactly once: the object is
    what [ensureMinSyntaxHighlightingColorContrast], with the resolved
    ratio, makes of the object it was after line 237. *)
Theorem themes_adjusted_once w e w' resolvedThemes w0 :
  Config.customizeTheme (configObject w) = None ->
  (run transferDeprecatedTheme; initialThemes) w = (Normal resolvedThemes, w0) ->
  NoDup resolvedThemes ->
  constructor w = (Normal e, w') ->
  PrimFloat.ltb 0 (minSyntaxHighlightingColorContrast e) = true ->
  forall r, r ∈ resolvedThemes ->
  exists t background,
    themeObjects w0 !! r = Some t /\
    themeObjects w' !! r
      = Some (ensureMinSyntaxHighlightingColorContrast
                (minSyntaxHighlightingColorContrast e) background t).
Proof.
  intros Hnone. rewrite initial_steps_run. intros [= <- <-] Hnodup Hrun Hpositive r Hr.
  destruct (transferred_fields (configObject w)) as (_ & _ & Hcustomize).
  apply constructor_Normal_steps in Hrun as (w1 & w2 & HuseDark & Hmap & Hobjects & _).
  apply useDarkModeMediaQuery_step_state in HuseDark as [Hobjects1 _].
  rewrite Hcustomize, Hnone in Hmap.
  apply mapM_index_objects in Hmap as [_ Hadjusted].
  destruct (Hadjusted Hpositive Hnodup r Hr) as (t & background & Hlookup & Hfinal).
  exists t, background. by rewrite Hobjects, <- Hobjects1.
Qed.


Lemma customizeAndAdjustTheme_replacement customize (replacement : ThemeRef -> ThemeRef)
    ratio plugins overrides theme index w theme' w' :
  (forall r h, customize r h = (Normal (Some (replacement r)), h)) ->
  customizeAndAdjustTheme (Some customize) ratio plugins overrides theme index w
    = (Normal theme', w') ->
  theme' = replacement theme /\
  forall r, r <> replacement theme -> themeObjects w' !! r = themeObjects w !! r.
Proof.
  intros Hcustomize. unfold customizeAndAdjustTheme.
  intros (customized & w1 & Hcall & Hrest)%bind_Normal.
  apply bind_Normal in Hcall as (returned & w2 & Hcall & Hret).
  unfold onThemes, zoom in Hcall. rewrite Hcustomize in Hcall.
  injection Hcall as <- <-. injection Hret as <- <-. simpl nullish in Hrest.
  apply bind_Normal in Hrest as ([] & w2 & Hpass & Hret). injection Hret as <- <-.
  split; [done|]. intros r Hr. destruct (PrimFloat.ltb 0 ratio).
  - apply bind_Normal in Hpass as ([] & w3 & Hrecord & Hpass). injection Hrecord as <-.
    apply bind_Normal in Hpass as (w4 & w5 & Hget & Hpass). injection Hget as <- <-.
    apply bind_Normal in Hpass as (settings & w6 & Hsettings & Hpass).
    unfold liftCompletion in Hsettings. injection Hsettings as Hsettings <-.
    apply bind_Normal in Hpass as ([] & w7 & Hrecord & Hpass). injection Hrecord as <-.
    unfold onThemes, zoom in Hpass. simpl themeObjects in Hpass.
    unfold updateTheme, bind, readTheme, modifyState in Hpass.
    destruct (themeObjects w !! replacement theme) as [t|] eqn:Hlookup; [|done].
    injection Hpass as <-. simpl. destruct w; simpl. by rewrite lookup_insert_ne.
  - injection Hpass as <-. by destruct w.
Qed.

Lemma mapM_index_replacement customize (replacement : ThemeRef -> ThemeRef) ratio plugins
    overrides start themes0 w themes w' :
  (forall r h, customize r h = (Normal (Some (replacement r)), h)) ->
  mapM_index (customizeAndAdjustTheme (Some customize) ratio plugins overrides) start themes0 w
    = (Normal themes, w') ->
  themes = replacement <$> themes0 /\
  forall r, r ∉ replacement <$> themes0 -> themeObjects w' !! r = themeObjects w !! r.
Proof.
  intros Hcustomize. revert start w themes.
  induction themes0 as [|theme rest IH]; intros start w themes; simpl.
  - by intros [= <- <-].
  - intros (theme' & w1 & Hfirst & Hrest)%bind_Normal.
    apply bind_Normal in Hrest as (themes' & w2 & Hrest & Hret). injection Hret as <- <-.
    apply (customizeAndAdjustTheme_replacement _ replacement) in Hfirst as [-> Hfirst];
      [|done].
    apply IH in Hrest as [-> Hframe]. split; [done|].
    intros r [Hne Hr]%not_elem_of_cons. by rewrite (Hframe r Hr), (Hfirst r Hne).
Qed.

(** X18. When [customizeTheme] answers every theme with a replacement and
    changes nothing itself, the engine's themes are the replacements, in
    order, and a successful construction leaves every other theme object,
    the themes that were replaced among them, as it was after line 237:
    the contrast pass works on the replacements. *)
Theorem replaced_themes_untouched w e w' customize (replacement : ThemeRef -> ThemeRef)
    resolvedThemes w0 :
  Config.customizeTheme (configObject w) = Some customize ->
  (forall r h, customize r h = (Normal (Some (replacement r)), h)) ->
  (run transferDeprecatedTheme; initialThemes) w = (Normal resolvedThemes, w0) ->
  constructor w = (Normal e, w') ->
  themes e = replacement <$> resolvedThemes /\
  forall r, r ∉ replacement <$> resolvedThemes ->
            themeObjects w' !! r = themeObjects w0 !! r.
Proof.
  intros Hsome Hcustomize. rewrite initial_steps_run. intros [= <- <-] Hrun.
  destruct (transferred_fields (configObject w)) as (_ & _ & Hfield).
  apply constructor_Normal_steps in Hrun as (w1 & w2 & HuseDark & Hmap & Hobjects & _).
  apply useDarkModeMediaQuery_step_state in HuseDark as [Hobjects1 _].
  rewrite Hfield, Hsome in Hmap.
  apply (mapM_index_replacement _ replacement) in Hmap as [Hthemes Hframe]; [|done].
  split; [done|]. intros r Hr. by rewrite Hobjects, (Hframe r Hr), Hobjects1.
Qed.

(** X14. An error thrown by [customizeTheme] for the first theme ends the
    construction with that error: nothing of the contrast pass or of the
    style variant resolution has been called by then. *)
Theorem customizeTheme_error_propagates w customize first rest w0 e h1 :
  Config.customizeTheme (configObject w) = Some customize ->
  (run transferDeprecatedTheme; initialThemes) w = (Normal (first :: rest), w0) ->
  (forall r, r ∈ first :: rest -> is_Some (themeObjects w0 !! r)) ->
  customize first (themeObjects w0) = (Throw e, h1) ->
  constructor w = (Throw e, setThemeObjects h1 w0) /\
  calls (constructor w).2 = calls w.
Proof.
  intros Hcustomize. rewrite initial_steps_run. intros [= Hthemes <-] Hlive Hthrow.
  destruct (transferred_fields (configObject w)) as (_ & _ & Hfield).
  assert (constructor w = (Throw e, setThemeObjects h1 (afterInitialThemes w))) as Hrun.
  { unfold constructor. unfold bind at 1. rewrite transferDeprecatedTheme_run.
    unfold bind at 1. rewrite initialThemes_run. simpl configObject. simpl themeObjects.
    unfold bind at 1. unfold readConfig at 1, bind at 1, getState at 1, ret at 1.
    change (setThemeObjects (initialThemesOf _ _).2 _) with (afterInitialThemes w).
    change (configObject (afterInitialThemes w)) with (transferred (configObject w)).
    rewrite Hthemes, Hfield, Hcustomize.
    assert (exists b,
              match Config.useDarkModeMediaQuery (transferred (configObject w)) with
              | Some b => ret b
              | None => onThemes (defaultUseDarkModeMediaQuery (first :: rest))
              end (afterInitialThemes w) = (Normal b, afterInitialThemes w)) as [b HuseDark].
    { destruct (Config.useDarkModeMediaQuery _); [by eexists|].
      unfold onThemes, zoom, defaultUseDarkModeMediaQuery.
      destruct rest as [|second [|third rest]]; try by eexists.
      destruct (Hlive first) as [t0 H0']; [apply elem_of_cons; by left|].
      destruct (Hlive second) as [t1 H1'];
        [apply elem_of_cons; right; apply elem_of_cons; by left|].
      unfold bind, readTheme, ret. rewrite H0', H1'. by eexists. }
    rewrite (bind_eq_Normal _ _ _ _ _ HuseDark). simpl mapM_index.
    unfold bind at 1. unfold bind at 1. unfold customizeAndAdjustTheme at 1.
    unfold bind at 1. unfold bind at 1. unfold onThemes at 1, zoom at 1.
    by rewrite Hthrow. }
  by rewrite Hrun.
Qed.

(** X15. Options given in the configuration are taken as they are, false
    and the empty string included: [themeCssSelector: false],
    [useDarkModeMediaQuery: false], an empty [themeCssRoot] or
    [cascadeLayer] all reach the engine. Only [defaultLocale] treats the
    empty string as missing: the engine's locale is never empty. *)
Theorem given_options_are_kept w e w' :
  constructor w = (Normal e, w') ->
  let config := configObject w in
  (forall selector, Config.themeCssSelector config = Some selector ->
                    themeCssSelector e = selector) /\
  (forall b, Config.useDarkModeMediaQuery config = Some b -> useDarkModeMediaQuery e = b) /\
  (forall root, Config.themeCssRoot config = Some root -> themeCssRoot e = root) /\
  (forall layer, Config.cascadeLayer config = Some layer -> cascadeLayer e = layer) /\
  (forall ratio, Config.minSyntaxHighlightingColorContrast config = Some ratio ->
                 minSyntaxHighlightingColorContrast e = ratio) /\
  defaultLocale e <> EmptyString /\
  (Config.defaultLocale config = Some EmptyString -> defaultLocale e = "en-US").
Proof.
  intros Hrun config. subst config.
  destruct (transferred_fields (configObject w)) as (HuseDark & Hratio & _).
  destruct (transferred_options (configObject w)) as (Hroot & Hselector & Hlayer & Hlocale).
  pose proof Hrun as Hrun'.
  apply constructor_Normal in Hrun' as (? & ? & _ & _ & Hratio' & _).
  apply constructor_Normal_steps in Hrun
    as (w1 & w2 & Hflag & _ & _ & _ & _ & -> & -> & -> & ->).
  rewrite Hroot, Hselector, Hlayer, Hlocale. rewrite HuseDark in Hflag. rewrite Hratio in Hratio'.
  split_and!.
  - by intros selector ->.
  - intros b Hb. rewrite Hb in Hflag. by injection Hflag as <- _.
  - by intros root ->.
  - by intros layer ->.
  - intros ratio Hgiven. by rewrite Hratio', Hgiven.
  - destruct (Config.defaultLocale (configObject w)) as [locale|]; [|done].
    destruct (truthy locale) eqn:Htruthy; [by apply truthy_true | done].
  - by intros ->.
Qed.

End MoreConstruction.

(** ** [getJsModules] *)

Section JsModulesProperties.
Context `{Externals}.
Variable trim : string -> string.

Lemma Set_add_elem set value x : x ∈ Set_add set value <-> x ∈ set \/ x = value.
Proof.
  unfold Set_add. case_bool_decide as Hin.
  - split; [by left | intros [?| ->]; done].
  - rewrite elem_of_app, list_elem_of_singleton. done.
Qed.

Lemma Set_add_NoDup set value : NoDup set -> NoDup (Set_add set value).
Proof.
  intros Hset. unfold Set_add. case_bool_decide as Hin; [done|].
  apply NoDup_app. split_and!; [done | | apply NoDup_singleton].
  intros x Hx ->%list_elem_of_singleton. done.
Qed.

Lemma addPluginModules_elem jsModules pluginModules x :
  x ∈ addPluginModules trim jsModules pluginModules <->
  x ∈ jsModules \/
  (x <> EmptyString /\ exists moduleCode, moduleCode ∈ pluginModules /\ x = trim moduleCode).
Proof.
  unfold addPluginModules. revert jsModules.
  induction pluginModules as [|moduleCode rest IH]; intros jsModules; simpl.
  - split; [by left | intros [?|(_ & ? & []%elem_of_nil & _)]; done].
  - rewrite IH. destruct (truthy (trim moduleCode)) eqn:Htruthy.
    + rewrite Set_add_elem. apply truthy_true in Htruthy. split.
      * intros [[?| ->]|(Hx & m & Hm & ->)]; [by left| |].
        -- right. split; [done|]. exists moduleCode. split; [apply elem_of_cons; by left | done].
        -- right. split; [done|]. exists m. split; [apply elem_of_cons; by right | done].
      * intros [?|(Hx & m & [->|Hm]%elem_of_cons & ->)]; [by left; left | by left; right |].
        right. split; [done|]. by exists m.
    + apply truthy_false in Htruthy. split.
      * intros [?|(Hx & m & Hm & ->)]; [by left|].
        right. split; [done|]. exists m. split; [apply elem_of_cons; by right | done].
      * intros [?|(Hx & m & [->|Hm]%elem_of_cons & ->)]; [by left | done |].
        right. split; [done|]. by exists m.
Qed.

Lemma addPluginModules_NoDup jsModules pluginModules :
  NoDup jsModules -> NoDup (addPluginModules trim jsModules pluginModules).
Proof.
  unfold addPluginModules. revert jsModules.
  induction pluginModules as [|moduleCode rest IH]; intros jsModules Hset; simpl; [done|].
  apply IH. destruct (truthy (trim moduleCode)); [by apply Set_add_NoDup | done].
Qed.

Lemma addPluginModules_nonempty jsModules pluginModules :
  Forall (fun x => x <> EmptyString) jsModules ->
  Forall (fun x => x <> EmptyString) (addPluginModules trim jsModules pluginModules).
Proof.
  intros Hset. apply Forall_forall. intros x [Hx|[Hx _]]%addPluginModules_elem; [|done].
  by eapply Forall_forall in Hset.
Qed.

(** What the loop keeps of the set it starts from. *)
Lemma collectJsModules_Normal (this : ExpressiveCodeEngine) plugins jsModules h result h' :
  collectJsModules trim this plugins jsModules h = (Normal result, h') ->
  (NoDup jsModules -> NoDup result) /\
  (Forall (fun x => x <> EmptyString) jsModules -> Forall (fun x => x <> EmptyString) result) /\
  (forall x, x ∈ jsModules -> x ∈ result) /\
  (forall plugin modules moduleCode,
     plugin ∈ plugins ->
     PluginJs.jsModules plugin = Some (StaticModules modules) ->
     moduleCode ∈ modules ->
     trim moduleCode <> EmptyString ->
     trim moduleCode ∈ result).
Proof.
  revert jsModules h. induction plugins as [|plugin rest IH]; intros jsModules h; simpl.
  - intros [= <- _]. split_and!; try done. by intros ? ? ? []%elem_of_nil.
  - intros (pluginModules & h1 & Hmodules & Hrest)%bind_Normal.
    apply IH in Hrest as (Hnodup & Hnonempty & Hkept & Hstatic).
    split_and!.
    + intros Hset. apply Hnodup.
      destruct pluginModules; [by apply addPluginModules_NoDup | done].
    + intros Hset. apply Hnonempty.
      destruct pluginModules; [by apply addPluginModules_nonempty | done].
    + intros x Hx. apply Hkept.
      destruct pluginModules; [apply addPluginModules_elem; by left | done].
    + intros plugin' modules moduleCode [->|Hin]%elem_of_cons Hfield Hmodule Htrimmed.
      * rewrite Hfield in Hmodules. injection Hmodules as <- _.
        apply Hkept, addPluginModules_elem. right. split; [done|]. by exists moduleCode.
      * by eapply Hstatic.
Qed.

(** X1. What [getJsModules] returns has no duplicates and no empty string,
    and holds the trimmed source of every module that a plugin lists in a
    static [jsModules] array, unless trimming leaves nothing of it. *)
Theorem getJsModules_deduplicated (this : ExpressiveCodeEngine) plugins h result h' :
  getJsModules trim this plugins h = (Normal result, h') ->
  NoDup result /\
  (forall x, x ∈ result -> x <> EmptyString) /\
  (forall plugin modules moduleCode,
     plugin ∈ plugins ->
     PluginJs.jsModules plugin = Some (StaticModules modules) ->
     moduleCode ∈ modules ->
     trim moduleCode <> EmptyString ->
     trim moduleCode ∈ result).
Proof.
  intros Hrun. unfold getJsModules in Hrun.
  apply collectJsModules_Normal in Hrun as (Hnodup & Hnonempty & _ & Hstatic).
  split_and!.
  - apply Hnodup, NoDup_nil_2.
  - intros x Hx. specialize (Hnonempty (Forall_nil_2 _)). by eapply Forall_forall in Hnonempty.
  - exact Hstatic.
Qed.

Lemma collectJsModules_static (this : ExpressiveCodeEngine) plugins jsModules h :
  staticJsModulesOnly plugins ->
  exists result,
    collectJsModules trim this plugins jsModules h = (Normal result, h) /\
    forall x,
      x ∈ result <->
      x ∈ jsModules \/
      (x <> EmptyString /\
       exists plugin modules moduleCode,
         plugin ∈ plugins /\
         PluginJs.jsModules plugin = Some (StaticModules modules) /\
         moduleCode ∈ modules /\
         x = trim moduleCode).
Proof.
  revert jsModules. induction plugins as [|plugin rest IH]; intros jsModules Hstatic; simpl.
  - exists jsModules. split; [done|]. intros x. split; [by left|].
    intros [?|(_ & ? & ? & ? & []%elem_of_nil & _)]. done.
  - assert (staticJsModulesOnly rest) as Hrest.
    { intros p f Hp. apply Hstatic, elem_of_cons. by right. }
    destruct (PluginJs.jsModules plugin) as [[modules|f]|] eqn:Hfield.
    + destruct (IH (addPluginModules trim jsModules modules) Hrest) as (result & Hrun & Hiff).
      exists result. split; [exact Hrun|]. intros x. rewrite Hiff, addPluginModules_elem.
      split.
      * intros [[?|(Hx & m & Hm & ->)]|(Hx & p & ms & m & Hp & Hf & Hm & ->)]; [by left| |].
        -- right. split; [done|]. exists plugin, modules, m.
           split_and!; try done. apply elem_of_cons. by left.
        -- right. split; [done|]. exists p, ms, m.
           split_and!; try done. apply elem_of_cons. by right.
      * intros [?|(Hx & p & ms & m & [->|Hp]%elem_of_cons & Hf & Hm & ->)]; [by left; left | |].
        -- rewrite Hfield in Hf. injection Hf as <-. left. right. split; [done|]. by exists m.
        -- right. split; [done|]. by exists p, ms, m.
    + exfalso. apply (Hstatic plugin f); [apply elem_of_cons; by left | done].
    + destruct (IH jsModules Hrest) as (result & Hrun & Hiff).
      exists result. split; [exact Hrun|]. intros x. rewrite Hiff. split.
      * intros [?|(Hx & p & ms & m & Hp & Hf & Hm & ->)]; [by left|].
        right. split; [done|]. exists p, ms, m. split_and!; try done. apply elem_of_cons. by right.
      * intros [?|(Hx & p & ms & m & [->|Hp]%elem_of_cons & Hf & Hm & ->)]; [by left | |].
        -- by rewrite Hfield in Hf.
        -- right. split; [done|]. by exists p, ms, m.
Qed.

(** X2. When no plugin computes its [jsModules], [getJsModules] returns
    without touching the theme objects, and a string is in the result
    exactly when it is not empty and is the trimmed source of a module that
    some plugin lists. *)
Theorem getJsModules_static (this : ExpressiveCodeEngine) plugins h :
  staticJsModulesOnly plugins ->
  exists result,
    getJsModules trim this plugins h = (Normal result, h) /\
    forall x,
      x ∈ result <->
      x <> EmptyString /\
      exists plugin modules moduleCode,
        plugin ∈ plugins /\
        PluginJs.jsModules plugin = Some (StaticModules modules) /\
        moduleCode ∈ modules /\
        x = trim moduleCode.
Proof.
  intros Hstatic.
  destruct (collectJsModules_static this plugins [] h Hstatic) as (result & Hrun & Hiff).
  exists result. split; [exact Hrun|]. intros x. rewrite Hiff. split.
  - by intros [[]%elem_of_nil|?].
  - by right.
Qed.

(** X3. When the first plugin that computes its [jsModules] throws, the
    call of [getJsModules] throws what it threw: no partial list is
    returned. *)
Theorem getJsModules_propagates (this : ExpressiveCodeEngine) before plugin after f h e h' :
  staticJsModulesOnly before ->
  PluginJs.jsModules plugin = Some (ComputedModules f) ->
  f (getResolverContext this) h = (Throw e, h') ->
  getJsModules trim this (before ++ plugin :: after) h = (Throw e, h').
Proof.
  intros Hstatic Hfield Hthrow. unfold getJsModules. generalize (@nil string).
  induction before as [|p rest IH]; intros jsModules; simpl.
  - rewrite Hfield. unfold bind. by rewrite Hthrow.
  - assert (staticJsModulesOnly rest) as Hrest.
    { intros q g Hq. apply Hstatic, elem_of_cons. by right. }
    destruct (PluginJs.jsModules p) as [[modules|g]|] eqn:Hp.
    + unfold bind at 1. unfold ret at 1. by apply IH.
    + exfalso. apply (Hstatic p g); [apply elem_of_cons; by left | done].
    + unfold bind at 1. unfold ret at 1. by apply IH.
Qed.

End JsModulesProperties.

(** * The properties on concrete inputs *)

Import Sample.

Lemma Map_wf_day : Map_wf (declarationsOf day).
Proof. apply (bool_decide_unpack _). by vm_compute. Defined.

Lemma sample_heap_live r : r ∈ [0; 1; 2] -> is_Some (heap !! r).
Proof.
  intros Hr%list_elem_of_In. simpl in Hr.
  destruct Hr as [<-|[<-|[<-|[]]]]; eexists; reflexivity.
Defined.

(** C1 on two dark themes with the media query requested: the message of
    what the call throws names both themes; on a dark and a light theme
    with a [themeCssSelector] that throws; and on a dark and a light theme
    with a CSS post-processing that rejects the base theme's block. *)
Lemma dark_mode_media_query_error_witness :
  let this := engineOf [0; 2] true defaultThemeCssSelector EmptyString in
  let failing := engineOf [0; 1] true failingSelector EmptyString in
  let plain := engineOf [0; 1] true SelectorFalse EmptyString in
  (throws (getThemeStyles this heap) <-> ~ hasOppositeAlternate this heap) /\
  (forall e h', getThemeStyles this heap = (Throw e, h') ->
     occursIn "night (dark)" (errorMessage e) /\
     occursIn "dusk (dark)" (errorMessage e) /\
     e = Error
       ("The config option " +:+ dquote +:+ "useDarkModeMediaQuery: true" +:+ dquote +:+
        " requires at least one dark and one light theme, but the following themes were given: "
        +:+ "night (dark), dusk (dark)")) /\
  getThemeStyles failing heap = (Throw (Error "no selector for this theme"), heap) /\
  @getThemeStyles types rejectingCss plain heap = (Throw (Error "invalid CSS"), heap).
Proof.
  intros this failing plain.
  assert (forall themes : list ThemeRef,
            (forall r, r ∈ themes -> r ∈ [0; 1; 2]) ->
            forall r, r ∈ themes -> is_Some (heap !! r)) as Hlive.
  { intros themes Hsub r Hr. by apply sample_heap_live, Hsub. }
  destruct (dark_mode_media_query_error this heap eq_refl eq_refl) as [Hmain _].
  { apply Hlive. intros r Hr%list_elem_of_In. simpl in Hr. apply list_elem_of_In. simpl. tauto. }
  destruct Hmain as [Hiff Hmessage].
  { intros f [= <-] styleVariant Hin.
    apply list_elem_of_In in Hin. simpl in Hin.
    destruct Hin as [<-|[<-|[]]]; eexists; reflexivity. }
  { intros css. by exists css. }
  destruct (dark_mode_media_query_error failing heap eq_refl eq_refl) as [_ Hpropagates].
  { apply Hlive. intros r Hr%list_elem_of_In. simpl in Hr. apply list_elem_of_In. simpl. tauto. }
  destruct (@dark_mode_media_query_error types rejectingCss plain heap eq_refl eq_refl)
    as [_ Hrejected].
  { apply Hlive. intros r Hr%list_elem_of_In. simpl in Hr. apply list_elem_of_In. simpl. tauto. }
  split_and!.
  - exact Hiff.
  - intros e h' Hthrow. destruct (Hmessage e h' Hthrow) as [Hnames Htext]. split_and!.
    + apply (Hnames 0 night); [|reflexivity].
      apply list_elem_of_In. simpl. tauto.
    + apply (Hnames 2 dusk); [|reflexivity].
      apply list_elem_of_In. simpl. tauto.
    + apply Htext. discriminate.
  - edestruct Hpropagates as [Hselector _]; [reflexivity|].
    apply Hselector. reflexivity.
  - edestruct Hrejected as [_ Hblock]; [reflexivity|].
    apply (Hblock IsFalse heap); reflexivity.
Defined.

(** The claim C1 as stated fails on an engine with a dark and a light theme
    whose [themeCssSelector] throws: a variant of the opposite type is there,
    and [getThemeStyles] throws all the same, with the selector's error. *)
Lemma dark_mode_media_query_error_counterexample :
  let this := engineOf [0; 1] true failingSelector EmptyString in
  useDarkModeMediaQuery this = true /\
  hasOppositeAlternate this heap /\
  getThemeStyles this heap = (Throw (Error "no selector for this theme"), heap) /\
  ~ (throws (getThemeStyles this heap) <-> ~ hasOppositeAlternate this heap).
Proof.
  intros this.
  assert (hasOppositeAlternate this heap) as Hopposite.
  { eexists _, _, 0, _, night, day. split_and!; reflexivity. }
  assert (getThemeStyles this heap = (Throw (Error "no selector for this theme"), heap))
    as Hthrows by (vm_compute; reflexivity).
  split_and!; [reflexivity | exact Hopposite | exact Hthrows |].
  intros [Hnone _]. apply Hnone; [|exact Hopposite]. by eexists _, _.
Qed.

(** C2 on the sample engine: the light variant differs from the dark base in
    two of its three variables. *)
Lemma diff_mapping_exact_witness :
  let this := engineOf [0; 1] true defaultThemeCssSelector EmptyString in
  Map_wf (declarationsOf day) /\
  alternateVariantsFrom (declarationsOf night) 1 (tail (styleVariants this)) !! 0 =
    Some {| av_theme := 1;
            cssVars := renderDeclarations (diffVars (declarationsOf night) (declarationsOf day));
            coreStyles := getCoreThemeStyles 1 |} /\
  (forall varName varValue,
     Map_get (diffVars (declarationsOf night) (declarationsOf day)) varName = Some varValue <->
     Map_get (declarationsOf day) varName = Some varValue /\
     Map_get (declarationsOf night) varName <> Some varValue).
Proof.
  intros this. split; [exact Map_wf_day|].
  destruct (diff_mapping_exact this
              {| theme := 0; styleVariantIndex := 0; cssVarDeclarations := declarationsOf night |}
              [ {| theme := 1; styleVariantIndex := 1; cssVarDeclarations := declarationsOf day |} ]
              0
              {| theme := 1; styleVariantIndex := 1; cssVarDeclarations := declarationsOf day |}
              eq_refl eq_refl Map_wf_day) as (Hentry & Hexact & _).
  split; [exact Hentry | exact Hexact].
Defined.

(** C3 on the sample engine with the layer [ec]. *)
Lemma cascade_layer_wrapping_witness :
  let this := engineOf [0; 1] true defaultThemeCssSelector "ec" in
  exists fragments processedStyles,
    themeStyles this heap = (Normal fragments, heap) /\
    cascadeLayer this <> EmptyString /\
    getThemeStyles this heap =
      (Normal ("@layer ec { " +:+ join EmptyString fragments +:+ " }"), heap) /\
    getBaseStyles this heap =
      (Normal ("@layer ec { " +:+ join EmptyString processedStyles +:+ " }"), heap).
Proof.
  intros this.
  assert ((themeStyles this heap).2 = heap) as Hheap by (vm_compute; reflexivity).
  destruct (themeStyles this heap) as [[fragments|e] h'] eqn:Hfragments;
    [|vm_compute in Hfragments; discriminate].
  simpl in Hheap. subst h'.
  destruct (cascade_layer_wrapping this heap) as [Htheme Hbase].
  exists fragments, [".expressive-code{}"]. split_and!.
  - reflexivity.
  - discriminate.
  - apply (Htheme fragments heap Hfragments). discriminate.
  - apply (Hbase [ {| pluginName := "core"; styles := ".expressive-code{}" |} ]
             [".expressive-code{}"] heap eq_refl eq_refl). discriminate.
Defined.

(** C7 on the sample engine over [night] and [day] with
    [themeCssSelector: false], post-processing being the identity: the
    stylesheet is the base block of [night] followed by the media query for
    light mode with the two variables in which [day] differs. *)
Lemma no_theme_selector_blocks_when_disabled_witness :
  let this := engineOf [0; 1] true SelectorFalse EmptyString in
  getThemeStyles this heap =
  (Normal
     (("
				" +:+ ":root" +:+ " {
					" +:+
        "--ec-bg:#000;--ec-fg:#fff;--ec-radius:4px" +:+ "
				}
				& {
					" +:+
        EmptyString +:+ "
				}
			")
      +:+
      ("
				@media (prefers-color-scheme: " +:+
        "light" +:+ ") {
					" +:+
        ":root" +:+ " {
						" +:+
        "--ec-bg:#fff;--ec-fg:#000" +:+ "
					}
					" +:+
        ":root" +:+ " & {
						" +:+
        EmptyString +:+ "
					}
				}
			")),
   heap).
Proof.
  intros this.
  assert ((getThemeStyles this heap).2 = heap) as Hheap by (vm_compute; reflexivity).
  destruct (getThemeStyles this heap) as [[out|e] h'] eqn:Hrun;
    [|vm_compute in Hrun; discriminate].
  simpl in Hheap. subst h'.
  destruct (no_theme_selector_blocks_when_disabled this heap out heap eq_refl Hrun)
    as (base & alternates & baseBlock & Hvariants & _ & HbaseBlock & Hmedia).
  injection Hvariants as <- <-.
  simpl in Hmedia.
  destruct Hmedia as (baseTheme & i & styleVariant & t & mediaQueryBlock &
                      HbaseTheme & Hi & Ht & Htype & _ & HmediaBlock & ->).
  injection HbaseTheme as <-.
  destruct i as [|i]; [|by destruct i].
  injection Hi as <-.
  injection HbaseBlock as <-. injection HmediaBlock as <-.
  reflexivity.
Defined.

(** C8 on the sample engine with the default selector. *)
Lemma getThemeStyles_twice_witness :
  let this := engineOf [0; 1; 2] true defaultThemeCssSelector "ec" in
  selectorReadOnly (themeCssSelector this) /\
  forall first h1 second h2,
    getThemeStyles this heap = (first, h1) ->
    getThemeStyles this h1 = (second, h2) ->
    second = first /\ h1 = heap /\ h2 = heap.
Proof.
  intros this.
  assert (selectorReadOnly (themeCssSelector this)) as Hselector.
  { intros f [= <-] theme styleVariants.
    apply readOnly_bind; [apply readOnly_readTheme | intros; apply readOnly_ret]. }
  split; [exact Hselector|].
  intros first h1 second h2.
  exact (getThemeStyles_twice this heap first h1 second h2 Hselector).
Defined.

(** C4 on a configuration that gives a dark and a light theme and no
    [customizeTheme]: the media query is on, and the engine's themes are two
    themes of different types. *)
Lemma useDarkModeMediaQuery_default_witness :
  let w := worldOf (configOf (Some (ThemeArray [0; 1])) None None None) in
  exists e w',
    constructor w = (Normal e, w') /\
    Config.useDarkModeMediaQuery (configObject w) = None /\
    (exists resolvedThemes w0,
       (run transferDeprecatedTheme; initialThemes) w = (Normal resolvedThemes, w0) /\
       (useDarkModeMediaQuery e = true <->
        exists first second t0 t1,
          resolvedThemes = [first; second] /\
          themeObjects w0 !! first = Some t0 /\
          themeObjects w0 !! second = Some t1 /\
          type t0 <> type t1)) /\
    (useDarkModeMediaQuery e = true <->
     exists first second t0 t1,
       themes e = [first; second] /\
       themeObjects w' !! first = Some t0 /\
       themeObjects w' !! second = Some t1 /\
       type t0 <> type t1).
Proof.
  intros w.
  destruct (constructor w) as [[e|err] w'] eqn:Hrun; [|vm_compute in Hrun; discriminate].
  exists e, w'. split_and!; [reflexivity..| |].
  - exact (proj1 (useDarkModeMediaQuery_default w e w' eq_refl Hrun)).
  - apply (proj2 (useDarkModeMediaQuery_default w e w' eq_refl Hrun)); [reflexivity|].
    intros ratio bg t. reflexivity.
Defined.

(** The claim C4 as stated fails on a configuration that gives a dark and a
    light theme and a [customizeTheme] that replaces every theme by [dusk]:
    [useDarkModeMediaQuery] is left out and resolves to true, while the
    themes of the engine are two themes of the same type. *)
Lemma useDarkModeMediaQuery_default_counterexample :
  let w := worldOf (configOf (Some (ThemeArray [0; 1])) None (Some replaceByDusk) None) in
  Config.useDarkModeMediaQuery (configObject w) = None /\
  exists e w',
    constructor w = (Normal e, w') /\
    useDarkModeMediaQuery e = true /\
    themes e = [2; 2] /\
    ~ (useDarkModeMediaQuery e = true <->
       exists first second t0 t1,
         themes e = [first; second] /\
         themeObjects w' !! first = Some t0 /\
         themeObjects w' !! second = Some t1 /\
         type t0 <> type t1).
Proof.
  intros w. split; [reflexivity|].
  destruct (constructor w) as [[e|err] w'] eqn:Hrun; [|vm_compute in Hrun; discriminate].
  exists e, w'. split; [reflexivity|].
  vm_compute in Hrun. injection Hrun as <- <-.
  split_and!; [reflexivity..|].
  intros [Hdiffer _].
  destruct (Hdiffer eq_refl) as (first & second & t0 & t1 & Hthemes & Hfirst & Hsecond & Hne).
  injection Hthemes as <- <-.
  vm_compute in Hfirst. vm_compute in Hsecond.
  injection Hfirst as <-. injection Hsecond as <-. done.
Qed.

(** C5 on a configuration with the minimum contrast set to 0, and on one
    that leaves it out. *)
Lemma contrast_pass_skipped_witness :
  let w := worldOf (configOf (Some (ThemeArray [0; 1])) (Some 0%float) None None) in
  let w2 := worldOf (configOf (Some (ThemeArray [0; 1])) None None None) in
  PrimFloat.leb 0 0 = true /\
  onlyResolveStyleVariantsAdded (calls w) (calls (constructor w).2) /\
  themeObjects (constructor w).2 = themeObjects w /\
  exists e w', constructor w2 = (Normal e, w') /\
               minSyntaxHighlightingColorContrast e = 5.5%float.
Proof.
  intros w w2. split; [reflexivity|].
  destruct (contrast_pass_skipped w) as [Hskipped _].
  destruct (Hskipped 0%float eq_refl eq_refl) as (Hcalls & _ & Hobjects).
  destruct (Hobjects eq_refl) as [_ Hsupplied].
  split_and!; [exact Hcalls | apply Hsupplied; left; by eexists |].
  destruct (constructor w2) as [[e|err] w'] eqn:Hrun; [|vm_compute in Hrun; discriminate].
  exists e, w'. split; [reflexivity|].
  destruct (contrast_pass_skipped w2) as [_ Hdefault].
  exact (Hdefault eq_refl e w' Hrun).
Defined.

(** C6 on a configuration with the deprecated [theme] and no [customizeTheme]. *)
Lemma deprecated_theme_migration_witness :
  let w := worldOf (configOf None None None (Some (OneTheme 0))) in
  exists e w',
    constructor w = (Normal e, w') /\
    themes e = [0] /\
    (forall message, LoggerCall message ∈ calls w' -> LoggerCall message ∈ calls w).
Proof.
  intros w.
  destruct (constructor w) as [[e|err] w'] eqn:Hrun; [|vm_compute in Hrun; discriminate].
  exists e, w'. split; [reflexivity|].
  destruct (deprecated_theme_migration w 0 e w' eq_refl eq_refl Hrun)
    as [(t' & Hthemes & Ht') Hquiet].
  simpl in Ht'. subst t'. split; [exact Hthemes | exact Hquiet].
Defined.

(** The claim C6 as stated fails on a configuration whose [customizeTheme]
    returns another theme: the engine's only theme is the replacement, not
    the theme that was supplied. *)
Lemma deprecated_theme_migration_counterexample :
  let config := configOf None None (Some replaceByDusk) (Some (OneTheme 0)) in
  Config.theme config = Some (OneTheme 0) /\
  Config.themes config = None /\
  exists e w',
    constructor (worldOf config) = (Normal e, w') /\
    themes e = [2] /\
    themes e <> [0].
Proof.
  intros config. split_and!; [reflexivity..|].
  destruct (constructor (worldOf config)) as [[e|err] w'] eqn:Hrun;
    [|vm_compute in Hrun; discriminate].
  exists e, w'. split; [reflexivity|].
  assert (themes e = [2]) as ->; [|by split].
  vm_compute in Hrun. by injection Hrun as <- _.
Qed.

(** C9 on a configuration with the deprecated [theme]. *)
Lemma deprecated_theme_transfer_mutates_config_witness :
  let w := worldOf (configOf None None None (Some (OneTheme 0))) in
  let config' := configObject (constructor w).2 in
  Config.theme (configObject w) = Some (OneTheme 0) /\
  Config.themes (configObject w) = None /\
  Config.themes config' = Some (ThemeArray [0]) /\
  Config.theme config' = None.
Proof.
  intros w config'. split_and!; [reflexivity..| |].
  - exact (proj1 (proj2 (deprecated_theme_transfer_mutates_config w (OneTheme 0)
                           eq_refl eq_refl))).
  - exact (proj2 (proj2 (deprecated_theme_transfer_mutates_config w (OneTheme 0)
                           eq_refl eq_refl))).
Defined.

(** C10 on a dark and a light theme, with and without a [customizeTheme]
    that makes every theme dark. *)
Lemma customizeTheme_cannot_change_useDarkModeMediaQuery_witness :
  let w := worldOf (configOf (Some (ThemeArray [0; 1])) None None None) in
  let w2 := setConfigObject (Config.withCustomizeTheme (Some darken) (configObject w)) w in
  exists e w' e2 w2',
    constructor w = (Normal e, w') /\
    constructor w2 = (Normal e2, w2') /\
    useDarkModeMediaQuery e2 = useDarkModeMediaQuery e.
Proof.
  intros w w2.
  destruct (constructor w) as [[e|err] w'] eqn:Hrun; [|vm_compute in Hrun; discriminate].
  destruct (constructor w2) as [[e2|err] w2'] eqn:Hrun2; [|vm_compute in Hrun2; discriminate].
  exists e, w', e2, w2'. split_and!; [reflexivity..|].
  destruct (customizeTheme_cannot_change_useDarkModeMediaQuery w e w' eq_refl Hrun)
    as [_ Hsame].
  exact (Hsame (Some darken) e2 w2' Hrun2).
Defined.

(** With that [customizeTheme] the media query stays on although both themes
    of the engine are dark by then, and [getThemeStyles] throws. *)
Example darkened_themes_keep_media_query :
  let w := worldOf (configOf (Some (ThemeArray [0; 1])) None (Some darken) None) in
  exists e w',
    constructor w = (Normal e, w') /\
    useDarkModeMediaQuery e = true /\
    (type <$> themeObjects w' !! 0) = Some dark /\
    (type <$> themeObjects w' !! 1) = Some dark /\
    throws (getThemeStyles e (themeObjects w')).
Proof.
  intros w.
  destruct (constructor w) as [[e|err] w'] eqn:Hrun; [|vm_compute in Hrun; discriminate].
  exists e, w'. split; [reflexivity|].
  vm_compute in Hrun. injection Hrun as <- <-.
  split_and!; [reflexivity..|]. eexists _, _. vm_compute. reflexivity.
Qed.

(** The proviso of C8 is needed: a [themeCssSelector] that changes the
    themes makes the second call return another string. *)
Example renaming_selector_is_not_repeatable :
  let this := engineOf [0; 1] true renamingSelector EmptyString in
  let first := getThemeStyles this heap in
  let second := getThemeStyles this first.2 in
  ~ selectorReadOnly (themeCssSelector this) /\ second.1 <> first.1.
Proof.
  intros this first second. split.
  - intros Hreadonly.
    pose proof (readOnly_getThemeStyles this Hreadonly heap) as Hsame.
    apply (f_equal (fun h : ThemeHeap => name <$> h !! 0)) in Hsame.
    vm_compute in Hsame. discriminate.
  - vm_compute. discriminate.
Qed.

(** The scenario of a dark and a light theme with everything else left out:
    the media query is on, and the stylesheet has three parts, the base
    block, the media query and the block of the light theme. *)
Example dark_and_light_scenario :
  let w := worldOf (configOf (Some (ThemeArray [0; 1])) None None None) in
  exists e w' fragments,
    constructor w = (Normal e, w') /\
    useDarkModeMediaQuery e = true /\
    themeStyles e (themeObjects w') = (Normal fragments, themeObjects w') /\
    length fragments = 3.
Proof.
  intros w.
  destruct (constructor w) as [[e|err] w'] eqn:Hrun; [|vm_compute in Hrun; discriminate].
  vm_compute in Hrun. injection Hrun as <- <-.
  eexists _, _, _. split_and!; [reflexivity | reflexivity | vm_compute; reflexivity | reflexivity].
Qed.

(** ** More properties on concrete inputs *)

Lemma framesPlugin_static : staticJsModulesOnly [framesPlugin; quietPlugin].
Proof.
  intros plugin f Hin%list_elem_of_In. simpl in Hin.
  destruct Hin as [<-|[<-|[]]]; discriminate.
Defined.

(** X1 on the plugins [frames] and [quiet]. *)
Lemma getJsModules_deduplicated_witness :
  let this := engineWithPlugins [] in
  exists result,
    getJsModules dropLeadingBlanks this [framesPlugin; quietPlugin] heap
      = (Normal result, heap) /\
    NoDup result /\
    (forall x, x ∈ result -> x <> EmptyString) /\
    "copy()" ∈ result.
Proof.
  intros this.
  assert ((getJsModules dropLeadingBlanks this [framesPlugin; quietPlugin] heap).2 = heap)
    as Hheap by (vm_compute; reflexivity).
  destruct (getJsModules dropLeadingBlanks this [framesPlugin; quietPlugin] heap)
    as [[result|e] h'] eqn:Hrun; [|vm_compute in Hrun; discriminate].
  simpl in Hheap. subst h'. exists result. split; [reflexivity|].
  destruct (getJsModules_deduplicated dropLeadingBlanks this _ heap result heap Hrun)
    as (Hnodup & Hnonempty & Hstatic).
  split_and!; [exact Hnodup | exact Hnonempty |].
  apply (Hstatic framesPlugin ["  copy()"; "copy()"; "   "; "tabs()"] "  copy()").
  - apply elem_of_cons. by left.
  - reflexivity.
  - apply elem_of_cons. by left.
  - discriminate.
Defined.

(** X2 on the plugins [frames] and [quiet]. *)
Lemma getJsModules_static_witness :
  let this := engineWithPlugins [] in
  staticJsModulesOnly [framesPlugin; quietPlugin] /\
  exists result,
    getJsModules dropLeadingBlanks this [framesPlugin; quietPlugin] heap
      = (Normal result, heap) /\
    forall x,
      x ∈ result <->
      x <> EmptyString /\
      exists plugin modules moduleCode,
        plugin ∈ [framesPlugin; quietPlugin] /\
        PluginJs.jsModules plugin = Some (StaticModules modules) /\
        moduleCode ∈ modules /\
        x = dropLeadingBlanks moduleCode.
Proof.
  intros this. split; [exact framesPlugin_static|].
  exact (getJsModules_static dropLeadingBlanks this _ heap framesPlugin_static).
Defined.

(** X3 on the plugins [frames], [broken] and [quiet]. *)
Lemma getJsModules_propagates_witness :
  let this := engineWithPlugins [] in
  getJsModules dropLeadingBlanks this ([framesPlugin] ++ brokenPlugin :: [quietPlugin]) heap
  = (Throw (Error "modules are not available"), heap).
Proof.
  intros this.
  apply (getJsModules_propagates dropLeadingBlanks this [framesPlugin] brokenPlugin
           [quietPlugin] (fun _ => throw (Error "modules are not available"))).
  - intros plugin f Hin%list_elem_of_In. simpl in Hin. destruct Hin as [<-|[]]. discriminate.
  - reflexivity.
  - reflexivity.
Defined.

(** X4 on the declarations of [night] and [day]. *)
Lemma diffVars_keeps_order_witness :
  sublist (diffVars (declarationsOf night) (declarationsOf day)) (declarationsOf day) /\
  Map_wf (diffVars (declarationsOf night) (declarationsOf day)) /\
  length (diffVars (declarationsOf night) (declarationsOf day))
    <= length (declarationsOf day).
Proof. exact (diffVars_keeps_order (declarationsOf night) (declarationsOf day) Map_wf_day). Defined.

Lemma defaultThemeCssSelector_readOnly : selectorReadOnly defaultThemeCssSelector.
Proof.
  intros f [= <-] theme styleVariants.
  apply readOnly_bind; [apply readOnly_readTheme | intros; apply readOnly_ret].
Defined.

(** X5 on the themes [night], [dusk], [day]: the media query is that of
    [day], the second alternate variant. *)
Lemma media_query_of_first_opposite_variant_witness :
  let this := engineOf [0; 2; 1] true defaultThemeCssSelector EmptyString in
  exists fragments base alternates baseTheme baseThemeSelector i styleVariant t block,
    themeStyles this heap = (Normal fragments, heap) /\
    styleVariants this = base :: alternates /\
    heap !! theme base = Some baseTheme /\
    callThemeCssSelector (themeCssSelector this) (theme base) (styleVariants this) heap
      = (Normal baseThemeSelector, heap) /\
    alternates !! i = Some styleVariant /\
    heap !! theme styleVariant = Some t /\
    type t = oppositeType (type baseTheme) /\
    (forall j earlier, j < i -> alternates !! j = Some earlier ->
       exists t', heap !! theme earlier = Some t' /\ type t' = type baseTheme) /\
    scopeAndMinifyNestedCss
      (darkModeMediaQueryCss (oppositeType (type baseTheme)) (themeCssRoot this)
         (notBaseThemeSelectorOf baseThemeSelector)
         {| av_theme := theme styleVariant;
            cssVars := renderDeclarations
                         (diffVars (cssVarDeclarations base) (cssVarDeclarations styleVariant));
            coreStyles := getCoreThemeStyles (Datatypes.S i) |})
      = Normal block /\
    fragments !! 1 = Some block.
Proof.
  intros this.
  assert ((themeStyles this heap).2 = heap) as Hheap by (vm_compute; reflexivity).
  destruct (themeStyles this heap) as [[fragments|e] h'] eqn:Hrun;
    [|vm_compute in Hrun; discriminate].
  simpl in Hheap. subst h'. exists fragments.
  destruct (media_query_of_first_opposite_variant this heap fragments heap eq_refl
              defaultThemeCssSelector_readOnly Hrun)
    as (base & alternates & baseTheme & baseThemeSelector & i & styleVariant & t & block &
        Hfacts).
  exists base, alternates, baseTheme, baseThemeSelector, i, styleVariant, t, block.
  split; [reflexivity | exact Hfacts].
Defined.

Lemma sample_selector_returns themes useDark layer :
  (forall r, r ∈ themes -> r ∈ [0; 1; 2]) ->
  selectorReturns (engineOf themes useDark defaultThemeCssSelector layer) heap.
Proof.
  intros Hthemes f [= <-] styleVariant Hin.
  assert (theme styleVariant ∈ [0; 1; 2]) as Hlive.
  { apply Hthemes. unfold engineOf, variantsOf in Hin. simpl in Hin.
    apply list_elem_of_lookup in Hin as [i Hi]. rewrite list_lookup_imap in Hi.
    destruct (themes !! i) as [r|] eqn:Hr; [|done]. injection Hi as <-. simpl.
    apply list_elem_of_lookup. by exists i. }
  destruct (sample_heap_live _ Hlive) as [t Ht].
  unfold bind. rewrite (readTheme_Some _ _ _ Ht). by eexists.
Defined.

(** X6 on an engine with the single theme [night]. *)
Lemma single_theme_media_query_throws_witness :
  let this := engineOf [0] true defaultThemeCssSelector EmptyString in
  useDarkModeMediaQuery this = true /\
  exists h',
    getThemeStyles this heap
    = (Throw (Error (darkModeErrorMessage (themeLabels heap (themes this)))), h').
Proof.
  intros this. split; [reflexivity|].
  apply (single_theme_media_query_throws this heap
           {| theme := 0; styleVariantIndex := 0; cssVarDeclarations := declarationsOf night |}).
  - reflexivity.
  - reflexivity.
  - by eexists.
  - intros r Hr. apply sample_heap_live.
    apply list_elem_of_In in Hr. simpl in Hr. apply list_elem_of_In. simpl. tauto.
  - apply sample_selector_returns.
    intros r Hr. apply list_elem_of_In in Hr. simpl in Hr. apply list_elem_of_In. simpl. tauto.
  - intros css. by exists css.
Defined.

(** X7 on [night] and [day] with the media query off. *)
Lemma themeStyles_without_media_query_witness :
  let this := engineOf [0; 1] false defaultThemeCssSelector EmptyString in
  exists baseBlock fragments,
    themeStyles this heap = (Normal (baseBlock :: fragments), heap) /\
    length fragments = 1.
Proof.
  intros this.
  destruct (themeStyles_without_media_query this heap
              {| theme := 0; styleVariantIndex := 0; cssVarDeclarations := declarationsOf night |}
              [ {| theme := 1; styleVariantIndex := 1; cssVarDeclarations := declarationsOf day |} ]
              _ dataThemeSelector (fun css => css) eq_refl eq_refl eq_refl)
    as (baseBlock & _ & Hrun).
  - intros styleVariant Hin%list_elem_of_In. simpl in Hin.
    destruct Hin as [<-|[<-|[]]]; reflexivity.
  - reflexivity.
  - eexists baseBlock, _. split; [exact Hrun | reflexivity].
Defined.

(** X8 on the plugins [frames] and [quiet], the second of which has nothing
    to add. *)
Lemma collectPluginStyles_shape_witness :
  let this := engineWithPlugins [PluginJs.plugin framesPlugin; PluginJs.plugin quietPlugin] in
  exists pluginStyles fromPlugins,
    collectPluginStyles this heap = (Normal pluginStyles, heap) /\
    pluginStyles =
      {| pluginName := "core";
         styles := getCoreBaseStyles (getResolverContext this) (useStyleReset this)
                     (useThemedScrollbars this) (useThemedSelectionColors this) |}
      :: fromPlugins /\
    Forall (fun entry => styles entry <> EmptyString) fromPlugins /\
    sublist (pluginName <$> fromPlugins) (Plugin.name <$> plugins this) /\
    length pluginStyles <= Datatypes.S (length (plugins this)).
Proof.
  intros this.
  assert ((collectPluginStyles this heap).2 = heap) as Hheap by (vm_compute; reflexivity).
  destruct (collectPluginStyles this heap) as [[pluginStyles|e] h'] eqn:Hrun;
    [|vm_compute in Hrun; discriminate].
  simpl in Hheap. subst h'.
  destruct (collectPluginStyles_shape this heap pluginStyles heap Hrun)
    as (fromPlugins & Hfacts).
  exists pluginStyles, fromPlugins. split; [reflexivity | exact Hfacts].
Defined.

(** X16 on the same plugins. *)
Lemma getBaseStyles_static_witness :
  let this := engineWithPlugins [PluginJs.plugin framesPlugin; PluginJs.plugin quietPlugin] in
  staticBaseStylesOnly (plugins this) /\
  getBaseStyles this heap = (Normal ".expressive-code{}.frame{}", heap).
Proof.
  intros this.
  assert (staticBaseStylesOnly (plugins this)) as Hstatic.
  { intros plugin f Hin%list_elem_of_In. simpl in Hin.
    destruct Hin as [<-|[<-|[]]]; discriminate. }
  split; [exact Hstatic|].
  exact (getBaseStyles_static this heap [".expressive-code{}"; ".frame{}"] Hstatic eq_refl).
Defined.

(** X9 on a configuration that names no theme at all. *)
Lemma themes_count_preserved_witness :
  let w := worldOf (configOf None None None None) in
  exists e w', constructor w = (Normal e, w') /\ length (themes e) = 2.
Proof.
  intros w.
  destruct (constructor w) as [[e|err] w'] eqn:Hrun; [|vm_compute in Hrun; discriminate].
  exists e, w'. split; [reflexivity|].
  destruct (themes_count_preserved w e w' _ _ (initial_steps_run w) Hrun) as [_ Hdefault].
  exact (Hdefault eq_refl eq_refl).
Defined.

Lemma NoDup_night_day : NoDup [0; 1].
Proof. apply (bool_decide_unpack _). by vm_compute. Defined.

(** X10 on [night] and [day]: [day], at position 1, is adjusted against the
    background resolved for it once [night] has its final form. *)
Lemma contrast_background_of_each_theme_witness :
  let w := worldOf (configOf (Some (ThemeArray [0; 1])) None None None) in
  exists e w' h themeStyleSettings,
    constructor w = (Normal e, w') /\
    h !! 0 = themeObjects w' !! 0 /\
    h !! 1 = Some day /\
    resolveStyleSettings h 1 1 (plugins e) (styleOverrides e) = Normal themeStyleSettings /\
    themeObjects w' !! 1
      = Some (ensureMinSyntaxHighlightingColorContrast
                (minSyntaxHighlightingColorContrast e)
                (getFirstStaticColor (settingsGet themeStyleSettings "codeBackground")) day).
Proof.
  intros w.
  destruct (constructor w) as [[e|err] w'] eqn:Hrun; [|vm_compute in Hrun; discriminate].
  assert (PrimFloat.ltb 0 (minSyntaxHighlightingColorContrast e) = true) as Hpositive.
  { pose proof Hrun as Hvalue. vm_compute in Hvalue. by injection Hvalue as <- _. }
  destruct (contrast_background_of_each_theme w e w' _ _ eq_refl (initial_steps_run w)
              NoDup_night_day Hrun Hpositive 1 1 eq_refl)
    as (h & t & settings & Hdone & Htodo & Hlookup & Hsettings & Hfinal).
  injection Hlookup as <-.
  exists e, w', h, settings. split_and!; [reflexivity | | | exact Hsettings | exact Hfinal].
  - apply Hdone. apply list_elem_of_In. simpl. tauto.
  - etransitivity; [apply (Htodo 1)|reflexivity].
    intros Hin%list_elem_of_In. simpl in Hin. by destruct Hin as [?|[]].
Defined.

(** X11 on [night] and [day]. *)
Lemma styleVariants_of_final_themes_witness :
  let w := worldOf (configOf (Some (ThemeArray [0; 1])) None None None) in
  exists e w',
    constructor w = (Normal e, w') /\
    resolveStyleVariants (themeObjects w') (themes e) (styleOverrides e) (plugins e)
      getCssVarName = Normal (styleVariants e).
Proof.
  intros w.
  destruct (constructor w) as [[e|err] w'] eqn:Hrun; [|vm_compute in Hrun; discriminate].
  exists e, w'. split; [reflexivity|]. exact (styleVariants_of_final_themes w e w' Hrun).
Defined.

(** X12 on [night] and [day]: [dusk] is left alone. *)
Lemma other_theme_objects_untouched_witness :
  let w := worldOf (configOf (Some (ThemeArray [0; 1])) None None None) in
  exists e w',
    constructor w = (Normal e, w') /\
    themes e = [0; 1] /\
    themeObjects w' !! 2 = Some dusk.
Proof.
  intros w.
  destruct (constructor w) as [[e|err] w'] eqn:Hrun; [|vm_compute in Hrun; discriminate].
  exists e, w'. split; [reflexivity|].
  destruct (other_theme_objects_untouched w e w' _ _ eq_refl (initial_steps_run w) Hrun)
    as [Hthemes Hframe].
  split; [exact Hthemes|].
  etransitivity; [apply (Hframe 2)|reflexivity].
  intros Hin%list_elem_of_In. simpl in Hin. by destruct Hin as [?|[?|[]]].
Defined.

(** X13 on [night] and [day]. *)
Lemma themes_adjusted_once_witness :
  let w := worldOf (configOf (Some (ThemeArray [0; 1])) None None None) in
  exists e w',
    constructor w = (Normal e, w') /\
    PrimFloat.ltb 0 (minSyntaxHighlightingColorContrast e) = true /\
    forall r, r ∈ [0; 1] ->
    exists t background,
      heap !! r = Some t /\
      themeObjects w' !! r
        = Some (ensureMinSyntaxHighlightingColorContrast
                  (minSyntaxHighlightingColorContrast e) background t).
Proof.
  intros w.
  destruct (constructor w) as [[e|err] w'] eqn:Hrun; [|vm_compute in Hrun; discriminate].
  assert (PrimFloat.ltb 0 (minSyntaxHighlightingColorContrast e) = true) as Hpositive.
  { pose proof Hrun as Hvalue. vm_compute in Hvalue. by injection Hvalue as <- _. }
  exists e, w'. split_and!; [reflexivity | exact Hpositive |].
  exact (themes_adjusted_once w e w' _ _ eq_refl (initial_steps_run w) NoDup_night_day Hrun
           Hpositive).
Defined.

(** X14 on [night] and [day] with a [customizeTheme] that throws. *)
Lemma customizeTheme_error_propagates_witness :
  let w := worldOf (configOf (Some (ThemeArray [0; 1])) None (Some failingCustomizeTheme) None) in
  constructor w = (Throw (Error "this theme cannot be customized"), w) /\
  calls (constructor w).2 = calls w.
Proof.
  intros w.
  apply (customizeTheme_error_propagates w failingCustomizeTheme 0 [1] w
           (Error "this theme cannot be customized") heap).
  - reflexivity.
  - reflexivity.
  - intros r Hr. apply sample_heap_live.
    apply list_elem_of_In in Hr. simpl in Hr. apply list_elem_of_In. simpl. tauto.
  - reflexivity.
Defined.

(** X15 on a configuration that turns the per-theme selectors off. *)
Lemma given_options_are_kept_witness :
  let config :=
    Config.Build_ExpressiveCodeEngineConfig _ (Some (ThemeArray [0; 1])) None (Some false)
      (Some EmptyString) (Some SelectorFalse) (Some EmptyString) None None None None None
      (Some EmptyString) None None None None in
  exists e w',
    constructor (worldOf config) = (Normal e, w') /\
    themeCssSelector e = SelectorFalse /\
    useDarkModeMediaQuery e = false /\
    themeCssRoot e = EmptyString /\
    defaultLocale e = "en-US".
Proof.
  intros config.
  destruct (constructor (worldOf config)) as [[e|err] w'] eqn:Hrun;
    [|vm_compute in Hrun; discriminate].
  exists e, w'. split; [reflexivity|].
  destruct (given_options_are_kept (worldOf config) e w' Hrun)
    as (Hselector & HuseDark & Hroot & _ & _ & _ & Hlocale).
  split_and!.
  - exact (Hselector SelectorFalse eq_refl).
  - exact (HuseDark false eq_refl).
  - exact (Hroot EmptyString eq_refl).
  - exact (Hlocale eq_refl).
Defined.


(** X18 on [night] and [day] with a [customizeTheme] that answers [dusk]:
    [night] and [day] are left as they were. *)
Lemma replaced_themes_untouched_witness :
  let w := worldOf (configOf (Some (ThemeArray [0; 1])) None (Some replaceByDusk) None) in
  exists e w',
    constructor w = (Normal e, w') /\
    themes e = [2; 2] /\
    themeObjects w' !! 0 = Some night /\
    themeObjects w' !! 1 = Some day.
Proof.
  intros w.
  destruct (constructor w) as [[e|err] w'] eqn:Hrun; [|vm_compute in Hrun; discriminate].
  exists e, w'. split; [reflexivity|].
  destruct (replaced_themes_untouched w e w' replaceByDusk (fun _ => 2) _ _ eq_refl
              (fun _ _ => eq_refl) (initial_steps_run w) Hrun) as [Hthemes Hframe].
  split_and!; [exact Hthemes | |].
  - etransitivity; [apply (Hframe 0)|reflexivity].
    intros Hin%list_elem_of_In. simpl in Hin. by destruct Hin as [?|[?|[]]].
  - etransitivity; [apply (Hframe 1)|reflexivity].
    intros Hin%list_elem_of_In. simpl in Hin. by destruct Hin as [?|[?|[]]].
Defined.
